(** * Fruit-spinner points award: the POST handler and its retry loop

    A shallow embedding of the route handler that adds spinner points to a
    user row under an optimistic lock on [lastPointsUpdateTimestamp], with
    at most [MAX_RETRIES] transaction attempts and an exponential backoff.

    The handler is written once, as a program over the calls it makes to its
    collaborators (the Prisma client, the clock, the console, the timer).
    Three readings of that program are then defined:
    - [reaches]: the paths of the program under arbitrary answers of the
      collaborators;
    - [exec]: one call running alone against a store;
    - [runPool]: several calls interleaved on one store by a schedule.

    Numbers are integers and timestamps are milliseconds.  The client may
    fail at every read and every update, with any error, and the clock may
    show any value; opening and ending a transaction do not fail. *)

From Stdlib Require Import ZArith Lia Bool QArith Qminmax.
From stdpp Require Import gmap strings list.

Local Open Scope string_scope.
Local Open Scope list_scope.
Local Open Scope Z_scope.

(** ** Data model *)

(** A row of the [user] table, restricted to the columns this route reads
    or writes.  Numbers are integers; the timestamp is in milliseconds. *)
Module user.
Record t : Type := mk {
  telegramId : string;
  points : Z;
  pointsBalance : Z;
  lastPointsUpdateTimestamp : Z;
}.
End user.

Abbreviation Store := (gmap string user.t).

(** The request body.  A field that is missing from the JSON object reads
    as [undefined] in the handler, modelled by [None]. *)
Record FruitSpinnerRequestBody : Type := {
  telegramId : option string;
  points : option Z;
}.

(** A value raised by [throw] or by a rejected promise: an [Error] object
    with its message, or any other value. *)
Inductive Thrown : Type :=
| JsError (message : string)
| NotAnError (shown : string).

(** A settled promise, as seen by [await]. *)
Inductive Settled (A : Type) : Type :=
| Fulfilled (a : A)
| Rejected (e : Thrown).
Arguments Fulfilled {A} a.
Arguments Rejected {A} e.

Record NextRequest : Type := { json : Settled FruitSpinnerRequestBody }.

(** The JSON bodies the handler sends. *)
Inductive ResponseBody : Type :=
| ErrorBody (error : string)
| ResultBody (success : bool) (message : string)
             (updatedPoints updatedPointsBalance pointsAdded : Z).

Record NextResponse : Type := { body : ResponseBody; status : Z }.

(** What a call of the handler ends with.  [ReturnedUndefined] is the
    handler falling out of its [while] loop; [OutOfFuel] is the recursion
    of [retryLoop] running out of fuel.  Neither is ever the outcome
    ([POST_responds]). *)
Inductive Outcome : Type :=
| Sent (r : NextResponse)
| ReturnedUndefined
| OutOfFuel.

(** The [where] and [data] arguments of [prisma.user.update]. *)
Record UpdateArgs : Type := {
  whereTelegramId : string;
  whereLastPointsUpdateTimestamp : Z;
  incrementPoints : Z;
  incrementPointsBalance : Z;
  setLastPointsUpdateTimestamp : Z;
}.

(** ** Programs over the collaborators *)

Inductive Prog (A : Type) : Type :=
| Ret (a : A)
| TxBegin (k : Prog A)
| FindUnique (whereId : string) (k : Settled (option user.t) -> Prog A)
| NewDate (k : Z -> Prog A)
| Update (args : UpdateArgs) (k : Settled user.t -> Prog A)
| TxEnd (commit : bool) (k : Prog A)
| ConsoleError (msg : string) (e : Thrown) (k : Prog A)
| SetTimeout (ms : Z) (k : Prog A).
Arguments Ret {A} a.
Arguments TxBegin {A} k.
Arguments FindUnique {A} whereId k.
Arguments NewDate {A} k.
Arguments Update {A} args k.
Arguments TxEnd {A} commit k.
Arguments ConsoleError {A} msg e k.
Arguments SetTimeout {A} ms k.

Fixpoint bind {A B : Type} (m : Prog A) (f : A -> Prog B) : Prog B :=
  match m with
  | Ret a => f a
  | TxBegin k => TxBegin (bind k f)
  | FindUnique w k => FindUnique w (fun r => bind (k r) f)
  | NewDate k => NewDate (fun d => bind (k d) f)
  | Update a k => Update a (fun r => bind (k r) f)
  | TxEnd c k => TxEnd c (bind k f)
  | ConsoleError m e k => ConsoleError m e (bind k f)
  | SetTimeout ms k => SetTimeout ms (bind k f)
  end.

(** Code that may throw: a program whose result is a settled promise. *)
Definition Js (A : Type) : Type := Prog (Settled A).

Definition ret {A : Type} (a : A) : Js A := Ret (Fulfilled a).
Definition throw {A : Type} (e : Thrown) : Js A := Ret (Rejected e).

Definition bindJ {A B : Type} (m : Js A) (f : A -> Js B) : Js B :=
  bind m (fun r => match r with
                   | Fulfilled a => f a
                   | Rejected e => Ret (Rejected e)
                   end).

Notation "'let*' x ':=' m 'in' k" := (bindJ m (fun x => k))
  (at level 10, x name, m at level 100, k at level 200).
Notation "'run' m 'then' x '=>' k" := (bind m (fun x => k))
  (at level 10, x name, m at level 100, k at level 200).

Definition findUnique (whereId : string) : Js (option user.t) :=
  FindUnique whereId Ret.
Definition newDate : Js Z := NewDate (fun d => Ret (Fulfilled d)).
Definition update (args : UpdateArgs) : Js user.t := Update args Ret.
Definition consoleError (msg : string) (e : Thrown) : Prog unit :=
  ConsoleError msg e (Ret tt).
Definition setTimeout (ms : Z) : Prog unit := SetTimeout ms (Ret tt).

(** [prisma.$transaction(callback)]: the callback runs between the opening
    of the transaction and its end, a commit when the callback returns and
    a rollback when it throws; the result of the callback is passed on. *)
Definition transaction {A : Type} (callback : Js A) : Js A :=
  TxBegin (run callback then r =>
           match r with
           | Fulfilled a => TxEnd true (Ret (Fulfilled a))
           | Rejected e => TxEnd false (Ret (Rejected e))
           end).

(** ** The handler *)

Definition MAX_RETRIES : Z := 3.
Definition RETRY_DELAY : Z := 100.

(** [String.prototype.includes] *)
Fixpoint startsWith (s sub : string) : bool :=
  match sub, s with
  | EmptyString, _ => true
  | String c sub', String d s' => Ascii.eqb c d && startsWith s' sub'
  | String _ _, EmptyString => false
  end.

Fixpoint includes (s sub : string) : bool :=
  startsWith s sub ||
  match s with
  | EmptyString => false
  | String _ s' => includes s' sub
  end.

(** [error instanceof Error && error.message.includes(sub)] *)
Definition isErrorIncluding (error : Thrown) (sub : string) : bool :=
  match error with
  | JsError message => includes message sub
  | NotAnError _ => false
  end.

Definition NextResponse_json (b : ResponseBody) (st : Z) : NextResponse :=
  {| body := b; status := st |}.

(** The callback handed to [prisma.$transaction]. *)
Definition awardCallback (telegramId : string) (points : Z) : Js ResponseBody :=
  let* dbUser := findUnique telegramId in
  match dbUser with
  | None => throw (JsError "User not found")
  | Some dbUser =>
      let* now := newDate in
      let* updatedUser :=
        update {| whereTelegramId := telegramId;
                  whereLastPointsUpdateTimestamp :=
                    user.lastPointsUpdateTimestamp dbUser;
                  incrementPoints := points;
                  incrementPointsBalance := points;
                  setLastPointsUpdateTimestamp := now |} in
      ret (ResultBody true "Fruit spinner points added successfully"
                      (user.points updatedUser)
                      (user.pointsBalance updatedUser)
                      points)
  end.

(** The [while (retries < MAX_RETRIES)] loop with its [try]/[catch].  The
    recursion is on [fuel], one unit per iteration; [retries] is the
    counter of the source.  [retryLoop_fuel] shows that [MAX_RETRIES] units
    are enough and that [OutOfFuel] is never the outcome. *)
Fixpoint retryLoop (fuel : nat) (telegramId : string) (points : Z)
    (retries : Z) : Prog Outcome :=
  match fuel with
  | O => Ret OutOfFuel
  | S fuel' =>
      if retries <? MAX_RETRIES then
        run transaction (awardCallback telegramId points) then r =>
        match r with
        | Fulfilled result => Ret (Sent (NextResponse_json result 200))
        | Rejected error =>
            if isErrorIncluding error "User not found" then
              Ret (Sent (NextResponse_json (ErrorBody "User not found") 404))
            else if retries >=? MAX_RETRIES - 1 then
              run consoleError "Max retries reached for fruit spinner points:"
                               error then _ =>
              Ret (Sent (NextResponse_json
                           (ErrorBody "Failed to add points after multiple attempts")
                           500))
            else
              let retries := retries + 1 in
              run setTimeout (RETRY_DELAY * 2 ^ retries) then _ =>
              retryLoop fuel' telegramId points retries
        end
      else Ret ReturnedUndefined
  end.

(** [!telegramId || points === undefined || points < 0] *)
Definition invalidRequest (b : FruitSpinnerRequestBody) : bool :=
  match telegramId b with
  | None => true
  | Some t => String.eqb t ""
  end
  || match points b with
     | None => true
     | Some p => p <? 0
     end.

Definition tryBlock (fuel : nat) (req : NextRequest) : Js Outcome :=
  let* b := Ret (json req) in
  if invalidRequest b then
    ret (Sent (NextResponse_json (ErrorBody "Invalid request data") 400))
  else
    match telegramId b, points b with
    | Some t, Some p => run retryLoop fuel t p 0 then o => ret o
    | _, _ =>
        (* not reached: [invalidRequest] holds of such a body *)
        ret (Sent (NextResponse_json (ErrorBody "Invalid request data") 400))
    end.

Definition POST_fuel (fuel : nat) (req : NextRequest) : Prog Outcome :=
  run tryBlock fuel req then r =>
  match r with
  | Fulfilled o => Ret o
  | Rejected error =>
      run consoleError "Error processing fruit spinner points:" error then _ =>
      Ret (Sent (NextResponse_json (ErrorBody "Internal server error") 500))
  end.

Definition POST (req : NextRequest) : Prog Outcome :=
  POST_fuel (Z.to_nat MAX_RETRIES) req.

(** ** The collaborators *)

(** One observable event of a call: the request made and the answer got. *)
Inductive Label : Type :=
| LTxBegin
| LFindUnique (whereId : string) (r : Settled (option user.t))
| LNewDate (d : Z)
| LUpdate (args : UpdateArgs) (r : Settled user.t)
| LTxEnd (commit : bool)
| LConsoleError (msg : string) (e : Thrown)
| LSetTimeout (ms : Z).

(** *** Paths under arbitrary answers *)

Inductive lstep {A : Type} : Prog A -> Label -> Prog A -> Prop :=
| lstep_begin k : lstep (TxBegin k) LTxBegin k
| lstep_find w k r : lstep (FindUnique w k) (LFindUnique w r) (k r)
| lstep_date k d : lstep (NewDate k) (LNewDate d) (k d)
| lstep_update a k r : lstep (Update a k) (LUpdate a r) (k r)
| lstep_end c k : lstep (TxEnd c k) (LTxEnd c) k
| lstep_console m e k : lstep (ConsoleError m e k) (LConsoleError m e) k
| lstep_timeout ms k : lstep (SetTimeout ms k) (LSetTimeout ms) k.

Inductive reaches {A : Type} : Prog A -> list Label -> Prog A -> Prop :=
| reaches_here p : reaches p [] p
| reaches_step p l p' t p'' :
    lstep p l p' -> reaches p' t p'' -> reaches p (l :: t) p''.

(** [onAllPaths p t Q]: whatever the collaborators answer, [p] ends, and
    [Q] holds of the events (after the events [t] already seen) and of the
    result.  Defined by recursion on the program, so that a property of all
    paths of the handler is proved by unfolding it. *)
Fixpoint onAllPaths {A : Type} (p : Prog A) (t : list Label)
    (Q : list Label -> A -> Prop) : Prop :=
  match p with
  | Ret a => Q t a
  | TxBegin k => onAllPaths k (t ++ [LTxBegin]) Q
  | FindUnique w k => forall r, onAllPaths (k r) (t ++ [LFindUnique w r]) Q
  | NewDate k => forall d, onAllPaths (k d) (t ++ [LNewDate d]) Q
  | Update a k => forall r, onAllPaths (k r) (t ++ [LUpdate a r]) Q
  | TxEnd c k => onAllPaths k (t ++ [LTxEnd c]) Q
  | ConsoleError m e k => onAllPaths k (t ++ [LConsoleError m e]) Q
  | SetTimeout ms k => onAllPaths k (t ++ [LSetTimeout ms]) Q
  end.

(** *** The store behind the Prisma client *)

(** What the environment decides at one call: whether the client fails
    there (and with what), and what the clock shows. *)
Record Choice : Type := { fault : option Thrown; clock : Z }.

(** Modelled from the spec: the Prisma client of [@/utils/prisma] and the
    schema of the [user] table are not in the sources at hand.  The spec
    gives the contract consumed: [findUserByKey] answers the row or its
    absence; [updateConditional] commits or conflicts, atomically, and a
    write whose precondition reads a stale timestamp fails to commit; an
    aborted transaction leaves nothing behind.

    The [data] of an update applied to a row: both increments and the new
    timestamp in one write. *)
Definition applyUpdate (a : UpdateArgs) (u : user.t) : user.t :=
  {| user.telegramId := user.telegramId u;
     user.points := user.points u + incrementPoints a;
     user.pointsBalance := user.pointsBalance u + incrementPointsBalance a;
     user.lastPointsUpdateTimestamp := setLastPointsUpdateTimestamp a |}.

(** Modelled from the spec: the error with which [update] reports that no
    row satisfies its [where], which is how a conflict reaches the handler.
    The text is the client's; what matters to the handler is that it does
    not contain "User not found" ([recordNotFound_not_classified]). *)
Definition recordNotFound : Thrown :=
  JsError "An operation failed because it depends on one or more records that were required but not found. Record to update not found.".

(** Modelled from the spec: [findUnique] answers the row stored under the
    key, or its absence, unless the client fails. *)
Definition gatewayFind (c : Choice) (st : Store) (w : string)
    : Settled (option user.t) :=
  match fault c with
  | Some e => Rejected e
  | None => Fulfilled (st !! w)
  end.

(** Modelled from the spec: [update] is one conditional write.  It
    changes the row only when the row exists and carries the expected
    timestamp, and a call that fails leaves the store as it was.  The
    handler ends the transaction right after a successful update, so the
    write is taken to be in the store from this step on; opening and
    ending a transaction are taken not to fail. *)
Definition gatewayUpdate (c : Choice) (st : Store) (a : UpdateArgs)
    : Settled user.t * Store :=
  match fault c with
  | Some e => (Rejected e, st)
  | None =>
      match st !! whereTelegramId a with
      | Some u =>
          if user.lastPointsUpdateTimestamp u =? whereLastPointsUpdateTimestamp a
          then (Fulfilled (applyUpdate a u),
                <[whereTelegramId a := applyUpdate a u]> st)
          else (Rejected recordNotFound, st)
      | None => (Rejected recordNotFound, st)
      end
  end.

(** One event of a program against the store. *)
Definition step {A : Type} (c : Choice) (st : Store) (p : Prog A)
    : option (Label * Store * Prog A) :=
  match p with
  | Ret _ => None
  | TxBegin k => Some (LTxBegin, st, k)
  | FindUnique w k =>
      let r := gatewayFind c st w in Some (LFindUnique w r, st, k r)
  | NewDate k => Some (LNewDate (clock c), st, k (clock c))
  | Update a k =>
      let r := gatewayUpdate c st a in Some (LUpdate a r.1, r.2, k r.1)
  | TxEnd b k => Some (LTxEnd b, st, k)
  | ConsoleError m e k => Some (LConsoleError m e, st, k)
  | SetTimeout ms k => Some (LSetTimeout ms, st, k)
  end.

(** *** One call running alone *)

Record Run (A : Type) : Type := {
  result : A;
  final : Store;
  trace : list Label;
}.
Arguments result {A} r.
Arguments final {A} r.
Arguments trace {A} r.

Definition after {A : Type} (l : Label) (r : Run A) : Run A :=
  {| result := result r; final := final r; trace := l :: trace r |}.

(** [exec env n st p] runs [p] to its end on the store [st], with no other
    writer; the [n]-th event of the run is decided by [env n]. *)
Fixpoint exec {A : Type} (env : nat -> Choice) (n : nat) (st : Store)
    (p : Prog A) : Run A :=
  match p with
  | Ret a => {| result := a; final := st; trace := [] |}
  | TxBegin k => after LTxBegin (exec env (S n) st k)
  | FindUnique w k =>
      let r := gatewayFind (env n) st w in
      after (LFindUnique w r) (exec env (S n) st (k r))
  | NewDate k =>
      after (LNewDate (clock (env n))) (exec env (S n) st (k (clock (env n))))
  | Update a k =>
      let r := gatewayUpdate (env n) st a in
      after (LUpdate a r.1) (exec env (S n) r.2 (k r.1))
  | TxEnd b k => after (LTxEnd b) (exec env (S n) st k)
  | ConsoleError m e k => after (LConsoleError m e) (exec env (S n) st k)
  | SetTimeout ms k => after (LSetTimeout ms) (exec env (S n) st k)
  end.

(** *** Several calls on one store *)

Record Thread : Type := { code : Prog Outcome; log : list Label }.

Record Pool : Type := { store : Store; threads : list Thread }.

(** Thread [i] performs its next event; a finished thread, or an index
    that names no thread, leaves the pool as it is. *)
Definition poolStep (P : Pool) (ic : nat * Choice) : Pool :=
  match threads P !! ic.1 with
  | Some th =>
      match step ic.2 (store P) (code th) with
      | Some (l, st', p') =>
          {| store := st';
             threads := <[ic.1 := {| code := p'; log := log th ++ [l] |}]>
                          (threads P) |}
      | None => P
      end
  | None => P
  end.

Definition runPool (schedule : list (nat * Choice)) (P : Pool) : Pool :=
  foldl poolStep P schedule.

Definition finished (th : Thread) : bool :=
  match code th with Ret _ => true | _ => false end.

Definition spawn (st : Store) (reqs : list NextRequest) : Pool :=
  {| store := st;
     threads := map (fun req => {| code := POST req; log := [] |}) reqs |}.

(** ** Observations on a list of events *)

(** Transaction attempts: one [LTxBegin] each. *)
Fixpoint attempts (t : list Label) : nat :=
  match t with
  | [] => O
  | LTxBegin :: t' => S (attempts t')
  | _ :: t' => attempts t'
  end.

(** The waits, in order. *)
Fixpoint delays (t : list Label) : list Z :=
  match t with
  | [] => []
  | LSetTimeout ms :: t' => ms :: delays t'
  | _ :: t' => delays t'
  end.

(** For each attempt, the wait that immediately precedes its opening, if
    there is one. *)
Fixpoint waitsBefore (prev : option Z) (t : list Label) : list (option Z) :=
  match t with
  | [] => []
  | LSetTimeout ms :: t' => waitsBefore (Some ms) t'
  | LTxBegin :: t' => prev :: waitsBefore None t'
  | _ :: t' => waitsBefore None t'
  end.

(** The errors with which calls of the client were rejected, in order. *)
Fixpoint rejections (t : list Label) : list Thrown :=
  match t with
  | [] => []
  | LFindUnique _ (Rejected e) :: t' => e :: rejections t'
  | LUpdate _ (Rejected e) :: t' => e :: rejections t'
  | _ :: t' => rejections t'
  end.

(** The reads that were answered with the absence of the row. *)
Fixpoint absentReads (t : list Label) : nat :=
  match t with
  | [] => O
  | LFindUnique _ (Fulfilled None) :: t' => S (absentReads t')
  | _ :: t' => absentReads t'
  end.

(** The updates that were applied, with the row each of them returned. *)
Fixpoint writes (t : list Label) : list (UpdateArgs * user.t) :=
  match t with
  | [] => []
  | LUpdate a (Fulfilled u) :: t' => (a, u) :: writes t'
  | _ :: t' => writes t'
  end.

(** What the applied updates of a trace add to the balance of row [w], and
    to its points. *)
Fixpoint credited (w : string) (t : list Label) : Z :=
  match t with
  | [] => 0
  | LUpdate a (Fulfilled _) :: t' =>
      (if String.eqb (whereTelegramId a) w then incrementPointsBalance a else 0)
      + credited w t'
  | _ :: t' => credited w t'
  end.

Fixpoint creditedPoints (w : string) (t : list Label) : Z :=
  match t with
  | [] => 0
  | LUpdate a (Fulfilled _) :: t' =>
      (if String.eqb (whereTelegramId a) w then incrementPoints a else 0)
      + creditedPoints w t'
  | _ :: t' => creditedPoints w t'
  end.

(** The responses of the handler. *)
Definition successResponse (updatedPoints updatedPointsBalance pointsAdded : Z)
    : NextResponse :=
  NextResponse_json
    (ResultBody true "Fruit spinner points added successfully"
                updatedPoints updatedPointsBalance pointsAdded) 200.
Definition invalidRequestResponse : NextResponse :=
  NextResponse_json (ErrorBody "Invalid request data") 400.
Definition userNotFoundResponse : NextResponse :=
  NextResponse_json (ErrorBody "User not found") 404.
Definition exhaustedRetriesResponse : NextResponse :=
  NextResponse_json (ErrorBody "Failed to add points after multiple attempts") 500.
Definition internalErrorResponse : NextResponse :=
  NextResponse_json (ErrorBody "Internal server error") 500.

(** A well-formed request for [points] on [telegramId]. *)
Definition awardRequest (t : string) (p : Z) : NextRequest :=
  {| json := Fulfilled {| telegramId := Some t; points := Some p |} |}.

(** Every path of [p] ends within [n] events. *)
Fixpoint endsWithin {A : Type} (n : nat) (p : Prog A) {struct p} : Prop :=
  match p with
  | Ret _ => True
  | TxBegin k => match n with O => False | S n' => endsWithin n' k end
  | FindUnique _ k =>
      match n with O => False | S n' => forall r, endsWithin n' (k r) end
  | NewDate k =>
      match n with O => False | S n' => forall d, endsWithin n' (k d) end
  | Update _ k =>
      match n with O => False | S n' => forall r, endsWithin n' (k r) end
  | TxEnd _ k => match n with O => False | S n' => endsWithin n' k end
  | ConsoleError _ _ k =>
      match n with O => False | S n' => endsWithin n' k end
  | SetTimeout _ k => match n with O => False | S n' => endsWithin n' k end
  end.

(** ** Further observations *)

(** The errors with which updates were refused, in order. *)
Fixpoint updateRejections (t : list Label) : list Thrown :=
  match t with
  | [] => []
  | LUpdate _ (Rejected e) :: t' => e :: updateRejections t'
  | _ :: t' => updateRejections t'
  end.

(** The update the handler asks for, given the row it has read and the
    reading of the clock. *)
Definition awardArgs (t : string) (p : Z) (dbUser : user.t) (now : Z)
    : UpdateArgs :=
  {| whereTelegramId := t;
     whereLastPointsUpdateTimestamp := user.lastPointsUpdateTimestamp dbUser;
     incrementPoints := p;
     incrementPointsBalance := p;
     setLastPointsUpdateTimestamp := now |}.

Definition succeeded (o : Outcome) : bool :=
  match o with
  | Sent r => status r =? 200
  | _ => false
  end.

(** The last [k] events of a trace. *)
Definition lastEvents (k : nat) (t : list Label) : list Label :=
  drop (length t - k) t.

(** The events of an attempt that commits. *)
Definition committingAttempt (t : string) (p : Z) (dbUser : user.t) (now : Z)
    : list Label :=
  [LTxBegin;
   LFindUnique t (Fulfilled (Some dbUser));
   LNewDate now;
   LUpdate (awardArgs t p dbUser now)
           (Fulfilled (applyUpdate (awardArgs t p dbUser now) dbUser));
   LTxEnd true].

(** ** Accounting for a pool *)

Definition sumZ (l : list Z) : Z := foldr Z.add 0 l.

(** A thread has committed when its call has returned a success. *)
Definition committed (th : Thread) : bool :=
  match code th with
  | Ret o => succeeded o
  | _ => false
  end.

(** What a finished thread has credited is its delta if it committed, and
    nothing if it did not. *)
Definition awardedBy (d : Z) (th : Thread) : Z :=
  if committed th then d else 0.

(** A call that succeeds has applied exactly one update, the one for its
    request; a call that ends otherwise has applied none. *)
Definition appliedOnce (t : string) (d : Z) (th : Thread) : Prop :=
  if committed th
  then exists dbUser now u', writes (log th) = [(awardArgs t d dbUser now, u')]
  else writes (log th) = [].

(** What a pool keeps true of the row [w], started from a store in which
    its balance was [b0] and its points [p0]. *)
Definition accounted (w : string) (b0 p0 : Z) (P : Pool) : Prop :=
  exists u,
    store P !! w = Some u
    /\ user.pointsBalance u =
         b0 + sumZ (map (fun th => credited w (log th)) (threads P))
    /\ user.points u =
         p0 + sumZ (map (fun th => creditedPoints w (log th)) (threads P)).

(** Each thread is somewhere on a path of the call it was spawned for. *)
Definition onTrack (reqs : list NextRequest) (P : Pool) : Prop :=
  Forall2 (fun req th => reaches (POST req) (log th) (code th))
          reqs (threads P).

(** ** Sample data and schedules *)

(** The row of the scenario: user "u1" with 100 points and a balance of
    100, last updated at time 1000. *)
Definition u1 : user.t :=
  {| user.telegramId := "u1"; user.points := 100; user.pointsBalance := 100;
     user.lastPointsUpdateTimestamp := 1000 |}.

Definition st1 : Store := {[ "u1" := u1 ]}.

(** A client that never fails, with the clock at [now]. *)
Definition calm (now : Z) : nat -> Choice :=
  fun _ => {| fault := None; clock := now |}.

(** A client that fails with [e] at the events listed in [at_], and only
    there. *)
Definition failing (e : Thrown) (at_ : list nat) (now : Z) : nat -> Choice :=
  fun n => {| fault := if bool_decide (n ∈ at_) then Some e else None;
              clock := now |}.

(** [k] turns of thread [i], with a client that answers and the clock at
    [now]. *)
Definition turns (i k : nat) (now : Z) : list (nat * Choice) :=
  replicate k (i, {| fault := None; clock := now |}).

(** Two calls whose reads race: both read the row before either writes;
    the first commits, the update of the second is refused for the stale
    stamp, and its second attempt commits. *)
Definition racing : list (nat * Choice) :=
  turns 0 2 2000 ++ turns 1 2 2000 ++ turns 0 3 2000 ++ turns 1 9 3000.

(** One call starved by three others: each time it has read the row,
    another call commits before its update. *)
Definition starving : list (nat * Choice) :=
  turns 0 2 2000 ++ turns 1 5 2000 ++ turns 0 6 2500 ++
  turns 2 5 3000 ++ turns 0 6 3500 ++ turns 3 5 4000 ++ turns 0 4 4500.

(** A failure of the client that is no conflict. *)
Definition unreachable : Thrown := JsError "Can't reach database server".

(** A failure of the client whose message happens to contain the text the
    handler looks for. *)
Definition misleading : Thrown :=
  JsError "Replica lag: User not found on the read replica".

(** A second row, of another user. *)
Definition u2 : user.t :=
  {| user.telegramId := "u2"; user.points := 7; user.pointsBalance := 5;
     user.lastPointsUpdateTimestamp := 500 |}.

Definition st2 : Store := <["u2" := u2]> st1.

(** ** What the award calls keep true of the rows *)

(** The updates a call asked for, applied or refused. *)
Fixpoint updatesAsked (t : list Label) : list UpdateArgs :=
  match t with
  | [] => []
  | LUpdate a _ :: t' => a :: updatesAsked t'
  | _ :: t' => updatesAsked t'
  end.

(** An update asked for on behalf of the request [req]: on the row the
    request names, with the points of the request added to both fields. *)
Definition asksFor (req : NextRequest) (a : UpdateArgs) : Prop :=
  exists t p,
    json req = Fulfilled {| telegramId := Some t; points := Some p |}
    /\ t <> "" /\ 0 <= p
    /\ whereTelegramId a = t
    /\ incrementPoints a = p
    /\ incrementPointsBalance a = p.

(** How a row may differ from what it was: its identifier and the
    difference of its two counters are kept, and the counters have not
    decreased. *)
Definition rowKept (u0 u : user.t) : Prop :=
  user.telegramId u = user.telegramId u0
  /\ user.pointsBalance u - user.points u
     = user.pointsBalance u0 - user.points u0
  /\ user.points u0 <= user.points u
  /\ user.pointsBalance u0 <= user.pointsBalance u.

(** The same keys, and each row kept. *)
Definition rowsKept (st0 st : Store) : Prop :=
  forall w,
    match st0 !! w, st !! w with
    | Some u0, Some u => rowKept u0 u
    | None, None => True
    | _, _ => False
    end.

(** The row a request names, when it passes the validation. *)
Definition namedRow (req : NextRequest) : option string :=
  match json req with
  | Fulfilled b => if invalidRequest b then None else telegramId b
  | Rejected _ => None
  end.

(** ** The spinner of the game page (components/Game.tsx) *)

Module Game.

Record Fruit : Type := {
  emoji : string;
  name : string;
  points : Z;
  isLoser : bool;
}.

(** The table of the slots.  A slot without [isLoser] reads it as
    [undefined], which is falsy: [false] here. *)
Definition fruits : list Fruit :=
  [ {| emoji := "🍒"; name := "Cherry"; points := 1; isLoser := false |};
    {| emoji := "🍋"; name := "Lemon"; points := 2; isLoser := false |};
    {| emoji := "🍇"; name := "Grape"; points := 3; isLoser := false |};
    {| emoji := "🍎"; name := "Apple"; points := 5; isLoser := false |};
    {| emoji := "🍓"; name := "Strawberry"; points := 8; isLoser := false |};
    {| emoji := "🍑"; name := "Peach"; points := 12; isLoser := false |};
    {| emoji := "🍉"; name := "Watermelon"; points := 15; isLoser := false |};
    {| emoji := "🍍"; name := "Pineapple"; points := 20; isLoser := false |};
    {| emoji := "💎"; name := "Diamond"; points := 50; isLoser := false |};
    {| emoji := "💀"; name := "You Lost"; points := 0; isLoser := true |} ].

(** The callback of [fruits.map] in [pickTargetFruitIndexWeighted]; the
    weights are the decimal numbers of the source. *)
Definition weightOf (f : Fruit) : Q :=
  if isLoser f then 22%Q
  else if points f <=? 1 then 18%Q
  else if points f =? 2 then 14%Q
  else if points f =? 3 then 10%Q
  else if points f =? 5 then 6%Q
  else if points f =? 8 then 4%Q
  else if points f =? 12 then 3%Q
  else if points f =? 15 then 2%Q
  else if points f =? 20 then 1.2%Q
  else if points f =? 50 then 0.6%Q
  else 1%Q.

(** The [for] loop of [pickTargetFruitIndexWeighted], for any arithmetic:
    [sub] is the subtraction of [roll -= weights[i]] and [nonPositive] the
    test [roll <= 0]. *)
Section Scan.
Context {num : Type} (sub : num -> num -> num) (nonPositive : num -> bool).

Fixpoint scan (weights : list num) (i : Z) (roll : num) : option Z :=
  match weights with
  | [] => None
  | w :: rest =>
      let roll := sub roll w in
      if nonPositive roll then Some i else scan rest (i + 1) roll
  end.

Definition pickWith (weights : list num) (roll : num) : Z :=
  match scan weights 0 roll with
  | Some i => i
  | None => Z.of_nat (length fruits) - 1
  end.
End Scan.

(** The numbers of the page and their operations: [ofLiteral] gives the
    number a decimal literal of the source stands for, [add], [mul] and
    [sub] are [+], [*] and [-], and [nonPositive] is the test [<= 0].  The
    page computes in doubles; nothing is assumed of these operations. *)
Record Arithmetic : Type := {
  num : Type;
  ofLiteral : Q -> num;
  add : num -> num -> num;
  mul : num -> num -> num;
  sub : num -> num -> num;
  nonPositive : num -> bool;
}.

(** The arithmetic of the rationals, without rounding. *)
Definition exact : Arithmetic :=
  {| num := Q; ofLiteral := fun q => q; add := Qplus; mul := Qmult;
     sub := Qminus; nonPositive := fun r => Qle_bool r 0%Q |}.

(** [random] is the value of [Math.random()]. *)
Definition pickTargetFruitIndexWeighted (ar : Arithmetic) (random : num ar)
    : Z :=
  let weights := map (fun f => ofLiteral ar (weightOf f)) fruits in
  let total := fold_left (add ar) weights (ofLiteral ar 0%Q) in
  let roll := mul ar random total in
  pickWith (sub ar) (nonPositive ar) weights roll.

(** What a tick does to the page and to the game store. *)
Inductive Effect : Type :=
| SetIsSpinning (b : bool)
| EnsureAudio
| TriggerHapticFeedback
| SetSelectedFruit (i : Z)
| PlayTick
| SetLastWin (fruit : string) (pts : Z) (loser : bool)
| SetShowReward (b : bool)
| HideRewardAfter (ms : Z)
| PlayWin
| PlayLose
| ClickTriggered
| UpdateLastClickTimestamp
| ConsoleLog (pts : Z)
| ScheduleTick (delay : Z)
| TypeError.

Definition minDurationMs : Z := 5000.

Definition Qltb (x y : Q) : bool := negb (Qle_bool y x).

(** [Math.min(1, elapsed / minDurationMs)]: [elapsed] is a difference of two
    readings of [Date.now()], an integer number of milliseconds, and for
    such a number the quotient compares with the literals below as the
    exact quotient does. *)
Definition progressOf (elapsed : Z) : Q :=
  Qmin 1 (inject_Z elapsed / inject_Z minDurationMs).

Definition delayOf (progress : Q) : Z :=
  if Qltb progress 0.6 then 35
  else if Qltb progress 0.85 then 90
  else if Qltb progress 0.95 then 160
  else 320.

Definition canStop (elapsed : Z) (delay : Z) : bool :=
  (elapsed >=? minDurationMs) && (delay >=? 160).

(** The branch of [tick] that ends the spin. *)
Definition stopEffects (targetFruit : Z) : list Effect :=
  [SetIsSpinning false; SetSelectedFruit targetFruit] ++
  match (if targetFruit <? 0 then None else fruits !! Z.to_nat targetFruit) with
  | None => [TypeError]
  | Some wonFruit =>
      [SetLastWin (name wonFruit) (points wonFruit) (isLoser wonFruit);
       SetShowReward true; HideRewardAfter 3000] ++
      if negb (isLoser wonFruit) then
        [PlayWin] ++ replicate (Z.to_nat (points wonFruit)) ClickTriggered ++
        [UpdateLastClickTimestamp; ConsoleLog (points wonFruit)]
      else [PlayLose]
  end.

(** One call of [tick]: the new [currentPosition], what it did, and the
    delay of the next tick, or [None] when the spin has stopped. *)
Definition tick (targetFruit currentPosition elapsed : Z)
    : Z * list Effect * option Z :=
  let currentPosition := Z.rem (currentPosition + 1) (Z.of_nat (length fruits)) in
  let delay := delayOf (progressOf elapsed) in
  if canStop elapsed delay && (currentPosition =? targetFruit) then
    (currentPosition,
     [SetSelectedFruit currentPosition; PlayTick] ++ stopEffects targetFruit,
     None)
  else
    (currentPosition,
     [SetSelectedFruit currentPosition; PlayTick; ScheduleTick delay],
     Some delay).

Record Spin : Type := {
  effects : list Effect;
  position : Z;
  stopped : bool;
}.

(** The chain of ticks: [readings] are the values of
    [Date.now() - startTime] seen by the successive ticks; the chain ends
    when a tick stops the spin, or is still going when the readings are
    used up. *)
Fixpoint ticks (targetFruit currentPosition : Z) (readings : list Z) : Spin :=
  match readings with
  | [] => {| effects := []; position := currentPosition; stopped := false |}
  | elapsed :: rest =>
      match tick targetFruit currentPosition elapsed with
      | (pos, fx, None) => {| effects := fx; position := pos; stopped := true |}
      | (pos, fx, Some _) =>
          let s := ticks targetFruit pos rest in
          {| effects := fx ++ effects s; position := position s;
             stopped := stopped s |}
      end
  end.

(** [spinFruits]: [isSpinning] is the state the handler sees, [audio] the
    outcome of [ensureAudio], [random] the value of [Math.random()]. *)
Definition spinFruits (ar : Arithmetic) (isSpinning : bool)
    (audio : Settled unit) (random : num ar) (readings : list Z) : Spin :=
  if isSpinning then
    {| effects := []; position := 0; stopped := false |}
  else
    match audio with
    | Rejected _ =>
        {| effects := [SetIsSpinning true; EnsureAudio]; position := 0;
           stopped := false |}
    | Fulfilled _ =>
        let targetFruit := pickTargetFruitIndexWeighted ar random in
        let s := ticks targetFruit 0 readings in
        {| effects := [SetIsSpinning true; EnsureAudio; TriggerHapticFeedback;
                       ScheduleTick 0] ++ effects s;
           position := position s; stopped := stopped s |}
    end.

(** How often an effect occurs. *)
Fixpoint countEffect (P : Effect -> bool) (fx : list Effect) : nat :=
  match fx with
  | [] => O
  | e :: rest => ((if P e then 1 else 0) + countEffect P rest)%nat
  end.

Definition isClick (e : Effect) : bool :=
  match e with ClickTriggered => true | _ => false end.
Definition isPlayTick (e : Effect) : bool :=
  match e with PlayTick => true | _ => false end.
Definition isSpinEnd (e : Effect) : bool :=
  match e with SetIsSpinning false => true | _ => false end.
Definition isTypeError (e : Effect) : bool :=
  match e with TypeError => true | _ => false end.

(** What a stop on [wonFruit] credits: one click per point, nothing for
    the losing slot. *)
Definition clicksFor (wonFruit : Fruit) : nat :=
  if isLoser wonFruit then O else Z.to_nat (points wonFruit).

End Game.

(** ** The welcome message route (app/api/send-welcome/route.ts) *)

Module SendWelcome.

(** The two fields the handler reads from the body; a missing field is
    [undefined], [None] here. *)
Record WelcomeRequestBody : Type := {
  telegramId : option string;
  telegramName : option string;
}.

(** [{ error }] or [{ success: true }]. *)
Inductive WelcomeBody : Type :=
| WelcomeError (error : string)
| WelcomeSuccess.

Record WelcomeResponse : Type := { welcomeBody : WelcomeBody; welcomeStatus : Z }.

(** What [fetch] resolves to: the [ok] flag, and what [response.json()]
    gives when it is asked for. *)
Record FetchResponse : Type := { ok : bool; responseJson : Settled string }.

(** The surroundings of a call: the environment variable and the outcome
    of the call to the Telegram API. *)
Record Surroundings : Type := {
  BOT_TOKEN : option string;
  fetched : Settled FetchResponse;
}.

Inductive WelcomeEvent : Type :=
| Fetch (url method contentType chat_id text parse_mode : string)
| ReadResponseJson
| LogTelegramError (errorData : string)
| LogError (error : Thrown).

(** [!v] is false exactly for a non-empty string. *)
Definition truthy (v : option string) : bool :=
  match v with
  | Some s => negb (String.eqb s "")
  | None => false
  end.

(** A value inside a template literal. *)
Definition interpolate (v : option string) : string :=
  match v with
  | Some s => s
  | None => "undefined"
  end.

(** The line feed, and the double quote. *)
Definition newline : string := String (Ascii.ascii_of_nat 10) "".
Definition quote : string := String (Ascii.ascii_of_nat 34) "".

Definition welcomeMessage (telegramName : option string) : string :=
  ("🍒 *Welcome " ++ interpolate telegramName ++ "!* 🎰" ++ newline ++ newline ++
   "Spin the Fruit Spinner and win points!" ++ newline ++ newline ++
   "• 🎯 Land on fruits to earn points (1–50)" ++ newline ++
   "• 💎 Diamond = 50 (jackpot), 🍍 Pineapple = 20" ++ newline ++
   "• 💀 " ++ quote ++ "You Lost" ++ quote ++ " slot — risk adds excitement" ++ newline ++
   "• 🏆 USDT add to your balance automatically" ++ newline ++ newline ++
   "⚡ *Tap Play and good luck!* ⚡")%string.

Definition respond (b : WelcomeBody) (st : Z) : WelcomeResponse :=
  {| welcomeBody := b; welcomeStatus := st |}.

(** The body of the [try]: the events, and the response returned or the
    value thrown. *)
Definition tryBlock (req : Settled WelcomeRequestBody) (env : Surroundings)
    : list WelcomeEvent * Settled WelcomeResponse :=
  match req with
  | Rejected e => ([], Rejected e)
  | Fulfilled b =>
      if negb (truthy (telegramId b)) then
        ([], Fulfilled (respond (WelcomeError "Missing telegramId") 400))
      else
        let botToken := BOT_TOKEN env in
        if negb (truthy botToken) then
          ([], Fulfilled (respond (WelcomeError "BOT_TOKEN not configured") 500))
        else
          let call :=
            Fetch ("https://api.telegram.org/bot" ++ interpolate botToken
                     ++ "/sendMessage")%string
                  "POST" "application/json"
                  (interpolate (telegramId b))
                  (welcomeMessage (telegramName b))
                  "Markdown" in
          match fetched env with
          | Rejected e => ([call], Rejected e)
          | Fulfilled response =>
              if negb (ok response) then
                match responseJson response with
                | Rejected e => ([call; ReadResponseJson], Rejected e)
                | Fulfilled errorData =>
                    ([call; ReadResponseJson; LogTelegramError errorData],
                     Fulfilled (respond (WelcomeError "Failed to send message") 500))
                end
              else ([call], Fulfilled (respond WelcomeSuccess 200))
          end
  end.

Definition POST (req : Settled WelcomeRequestBody) (env : Surroundings)
    : list WelcomeEvent * WelcomeResponse :=
  match tryBlock req env with
  | (events, Fulfilled r) => (events, r)
  | (events, Rejected error) =>
      (events ++ [LogError error],
       respond (WelcomeError "Internal server error") 500)
  end.

(** The calls to the Telegram API among the events. *)
Fixpoint fetches (events : list WelcomeEvent) : list WelcomeEvent :=
  match events with
  | [] => []
  | Fetch u m c i t p :: rest => Fetch u m c i t p :: fetches rest
  | _ :: rest => fetches rest
  end.

End SendWelcome.

(** * Proofs *)

(** ** General facts *)

Section Paths.
Context {A : Type}.
Implicit Types (p : Prog A) (t : list Label).

Lemma reaches_Ret_inv (a : A) t p :
  reaches (Ret a) t p -> t = [] /\ p = Ret a.
Proof.
  inversion 1 as [|? ? ? ? ? Hs]; subst; [done|]. inversion Hs.
Qed.

Lemma reaches_trans p t p' t' p'' :
  reaches p t p' -> reaches p' t' p'' -> reaches p (t ++ t') p''.
Proof.
  induction 1 as [|? ? ? ? ? Hs _ IH]; [done|].
  intros H'. simpl. eapply reaches_step; [exact Hs | exact (IH H')].
Qed.

Lemma onAllPaths_mono p t (Q Q' : list Label -> A -> Prop) :
  (forall t' a, Q t' a -> Q' t' a) -> onAllPaths p t Q -> onAllPaths p t Q'.
Proof.
  intros HQ. revert t.
  induction p as [a|k IH|w k IH|k IH|args k IH|c k IH|m e k IH|ms k IH];
    simpl; intros t H; eauto.
Qed.

(** A path that ends satisfies what holds on all paths. *)
Lemma onAllPaths_reaches p t (Q : list Label -> A -> Prop) t' a :
  onAllPaths p t Q -> reaches p t' (Ret a) -> Q (t ++ t') a.
Proof.
  revert t t'.
  induction p as [b|k IH|w k IH|k IH|args k IH|c k IH|m e k IH|ms k IH];
    simpl; intros t t' HQ Hr.
  1: { apply reaches_Ret_inv in Hr as [-> [= ->]]. by rewrite app_nil_r. }
  all: inversion Hr as [|? ? ? ? ? Hs Hr']; subst; inversion Hs; subst.
  all: match goal with
       | |- _ (?t0 ++ ?l :: ?t1) _ =>
           replace (t0 ++ l :: t1) with ((t0 ++ [l]) ++ t1)
             by (by rewrite <- app_assoc)
       end; eapply IH; eauto.
Qed.

(** No path of a program that ends within [n] events is longer. *)
Lemma endsWithin_reaches n p t p' :
  endsWithin n p -> reaches p t p' -> (length t <= n)%nat.
Proof.
  intros Hn Hr. revert n Hn.
  induction Hr as [|p l p' t p'' Hs _ IH]; intros n Hn; [simpl; lia|].
  destruct Hs; destruct n as [|n]; simpl in *; try done;
    apply le_n_S, IH; auto.
Qed.

Lemma step_lstep c st p l st' p' :
  step c st p = Some (l, st', p') -> lstep p l p'.
Proof.
  destruct p; simpl; intros [= <- <- <-]; constructor.
Qed.

(** The run of a call alone is one of its paths. *)
Lemma exec_reaches env n st p :
  reaches p (trace (exec env n st p)) (Ret (result (exec env n st p))).
Proof.
  revert n st.
  induction p as [a|k IH|w k IH|k IH|args k IH|c k IH|m e k IH|ms k IH];
    intros n st; simpl; try (eapply reaches_step; [constructor|]; auto).
  constructor.
Qed.

(** A call alone runs by the same steps as a thread of a pool. *)
Lemma exec_step env n st p l st' p' :
  step (env n) st p = Some (l, st', p') ->
  exec env n st p = after l (exec env (S n) st' p').
Proof.
  destruct p; simpl; intros [= <- <- <-]; reflexivity.
Qed.
End Paths.

(** ** Facts about the handler *)

(** [includes] is the substring test. *)
Lemma append_nil_l (s : string) : ("" ++ s)%string = s.
Proof. reflexivity. Qed.

Lemma append_cons_l (c : Ascii.ascii) (s s' : string) :
  (String c s ++ s')%string = String c (s ++ s')%string.
Proof. reflexivity. Qed.

Lemma startsWith_spec (s sub : string) :
  startsWith s sub = true <-> exists rest, s = (sub ++ rest)%string.
Proof.
  revert s. induction sub as [|c sub IH]; intros s.
  - destruct s; simpl; (split; [intros _; by eexists | done]).
  - destruct s as [|d s]; simpl.
    + split; [done | intros [rest H]; by rewrite append_cons_l in H].
    + rewrite andb_true_iff, Ascii.eqb_eq, IH. split.
      * intros [-> [rest ->]]. by exists rest.
      * intros [rest H]. rewrite append_cons_l in H.
        injection H as -> ->. eauto.
Qed.

Lemma includes_spec (s sub : string) :
  includes s sub = true <->
  exists before rest, s = (before ++ sub ++ rest)%string.
Proof.
  induction s as [|d s IH]; cbn [includes].
  - rewrite orb_false_r, startsWith_spec. split.
    + intros [rest ->]. by exists "", rest.
    + intros [[|? ?] [rest H]].
      * rewrite append_nil_l in H. by exists rest.
      * by rewrite append_cons_l in H.
  - rewrite orb_true_iff, startsWith_spec, IH. split.
    + intros [[rest ->] | (before & rest & ->)].
      * by exists "", rest.
      * by exists (String d before), rest.
    + intros [[|c before] [rest H]].
      * rewrite append_nil_l in H. left. by exists rest.
      * rewrite append_cons_l in H. injection H as -> ->.
        right. by exists before, rest.
Qed.

(** The error of a conflicting update is not taken for a missing user. *)
Lemma recordNotFound_not_classified :
  isErrorIncluding recordNotFound "User not found" = false.
Proof. reflexivity. Qed.

Lemma POST_unfold (req : NextRequest) : POST req = POST_fuel 3 req.
Proof. reflexivity. Qed.

(** Three units of fuel are enough: more fuel gives the same program. *)
Lemma retryLoop_fuel (fuel : nat) (t : string) (p : Z) :
  (3 <= fuel)%nat -> retryLoop fuel t p 0 = retryLoop 3 t p 0.
Proof.
  intros H. do 3 (destruct fuel as [|fuel]; [lia|]). reflexivity.
Qed.

Lemma POST_fuel_enough (fuel : nat) (req : NextRequest) :
  (3 <= fuel)%nat -> POST_fuel fuel req = POST req.
Proof.
  intros H. rewrite POST_unfold. unfold POST_fuel, tryBlock.
  destruct (json req) as [b|e]; [|reflexivity]. cbn.
  destruct (invalidRequest b); [reflexivity|].
  destruct (telegramId b), (points b); try reflexivity.
  by rewrite (retryLoop_fuel fuel).
Qed.

(** The body of a well-formed request passes the validation exactly when
    its identifier is not empty and its points are not negative. *)
Lemma invalidRequest_award (t : string) (p : Z) :
  invalidRequest {| telegramId := Some t; points := Some p |} = false <->
  t <> "" /\ 0 <= p.
Proof.
  unfold invalidRequest; simpl.
  rewrite orb_false_iff, String.eqb_neq, Z.ltb_ge. tauto.
Qed.

(** The handler on a request that passes the validation. *)
Lemma POST_award (t : string) (p : Z) :
  t <> "" -> 0 <= p ->
  POST (awardRequest t p) =
    run (run retryLoop 3 t p 0 then o => ret o) then r =>
    match r with
    | Fulfilled o => Ret o
    | Rejected error =>
        run consoleError "Error processing fruit spinner points:" error then _ =>
        Ret (Sent internalErrorResponse)
    end.
Proof.
  intros Ht Hp.
  assert (Hv := proj2 (invalidRequest_award t p) (conj Ht Hp)).
  rewrite POST_unfold. unfold POST_fuel, tryBlock, awardRequest.
  cbn [json bindJ bind]. by rewrite Hv.
Qed.

Lemma onAllPaths_bind {A B : Type} (m : Prog A) (f : A -> Prog B)
    (t : list Label) (Q : list Label -> B -> Prop) :
  onAllPaths m t (fun t' a => onAllPaths (f a) t' Q) ->
  onAllPaths (bind m f) t Q.
Proof.
  revert t.
  induction m as [a|k IH|w k IH|k IH|args k IH|c k IH|msg e k IH|ms k IH];
    simpl; intros t H; auto.
Qed.

(** The three ways into the handler: the body cannot be read, the body is
    rejected by the validation, or the retry loop is entered. *)
Lemma POST_cases (req : NextRequest) (Q : list Label -> Outcome -> Prop) :
  (forall e, json req = Rejected e ->
     Q [LConsoleError "Error processing fruit spinner points:" e]
       (Sent internalErrorResponse)) ->
  (forall b, json req = Fulfilled b -> invalidRequest b = true ->
     Q [] (Sent invalidRequestResponse)) ->
  (forall t p,
     json req = Fulfilled {| telegramId := Some t; points := Some p |} ->
     t <> "" -> 0 <= p ->
     onAllPaths (retryLoop 3 t p 0) [] Q) ->
  onAllPaths (POST req) [] Q.
Proof.
  intros Hrej Hbad Hloop.
  rewrite POST_unfold. unfold POST_fuel, tryBlock.
  destruct (json req) as [b|e] eqn:Hreq; cbn [bindJ bind]; [|by apply Hrej].
  destruct (invalidRequest b) eqn:Hv; [by apply (Hbad b)|].
  destruct b as [[t|] [p|]];
    try (unfold invalidRequest in Hv; cbn in Hv;
         rewrite ?orb_true_r in Hv; discriminate Hv).
  cbn [telegramId points].
  apply invalidRequest_award in Hv as [Ht Hp].
  apply onAllPaths_bind, onAllPaths_bind.
  eapply onAllPaths_mono; [|by apply Hloop]. by intros tr o HQ.
Qed.

(** Resolve the tests of the handler whose operands are known. *)
Ltac known_tests :=
  match goal with
  | |- context [if ?b then _ else _] =>
      lazymatch b with true => fail | false => fail | _ => idtac end;
      let v := eval vm_compute in b in
      match v with
      | true => change b with true
      | false => change b with false
      end
  end.

(** Walk through all paths of the handler: take any answer of the
    collaborators, and split on how a caught error is classified. *)
Ltac explore :=
  repeat first
    [ progress cbn
    | known_tests
    | match goal with
      | |- forall r : Settled (option user.t), _ => intros [[?|]|?]
      | |- forall r : Settled user.t, _ => intros [?|?]
      | |- forall d : Z, _ => intros ?
      | |- context [isErrorIncluding ?e ?s] =>
          is_var e; destruct (isErrorIncluding e s) eqn:?
      end ].

(** Run the handler alone on a store in which the row is known: split on
    the faults the environment injects. *)
Ltac run_alone :=
  repeat first
    [ progress cbn
    | known_tests
    | match goal with
      | H : ?st !! ?w = _ |- context [?st !! ?w] => rewrite H
      | |- context [user.lastPointsUpdateTimestamp ?u =? user.lastPointsUpdateTimestamp ?u] =>
          rewrite (Z.eqb_refl (user.lastPointsUpdateTimestamp u))
      | |- context [gatewayFind ?c ?st ?w] =>
          unfold gatewayFind; destruct (fault c) eqn:?
      | |- context [gatewayUpdate ?c ?st ?a] =>
          unfold gatewayUpdate; destruct (fault c) eqn:?
      | |- context [isErrorIncluding ?e ?s] =>
          is_var e; destruct (isErrorIncluding e s) eqn:?
      end ].

(** Whatever the collaborators answer, the handler sends a response: it
    neither falls out of its loop nor runs out of fuel. *)
Lemma POST_responds (req : NextRequest) :
  onAllPaths (POST req) [] (fun _ o =>
    exists r, o = Sent r /\
      (status r = 200 \/ status r = 400 \/ status r = 404 \/ status r = 500)).
Proof.
  rewrite POST_unfold. unfold POST_fuel, tryBlock.
  destruct (json req) as [b|e]; cbn.
  2: { eexists; split; [reflexivity | cbn; lia]. }
  destruct (invalidRequest b); cbn.
  1: { eexists; split; [reflexivity | cbn; lia]. }
  destruct (telegramId b), (points b); cbn.
  2-4: eexists; split; [reflexivity | cbn; lia].
  explore.
  all: eexists; split; [reflexivity | cbn; lia].
Qed.

(** Every path of the handler ends within eighteen events. *)
Lemma POST_endsWithin (req : NextRequest) : endsWithin 18 (POST req).
Proof.
  rewrite POST_unfold. unfold POST_fuel, tryBlock.
  destruct (json req) as [b|e]; cbn; [|done].
  destruct (invalidRequest b); cbn; [done|].
  destruct (telegramId b), (points b); cbn; try done.
  explore. all: done.
Qed.

(** ** Requests that do not pass the validation *)

(** C4.  A request whose [telegramId] is missing or empty, or whose
    [points] is undefined or negative, is answered with status 400 and
    "Invalid request data" at once: the handler is then the program that
    only returns this response, so it opens no transaction and makes no
    call to the store, and a run leaves the store as it was with no event
    at all.  A request for zero points on a non-empty identifier is not
    rejected by this check: on each of its paths a transaction is opened and
    the response is not the 400 one. *)
Theorem invalid_request_rejected_before_any_transaction :
  (forall b : FruitSpinnerRequestBody,
     telegramId b = None \/ telegramId b = Some "" \/ points b = None \/
       (exists p, points b = Some p /\ p < 0) ->
     POST {| json := Fulfilled b |} = Ret (Sent invalidRequestResponse) /\
     forall env n st,
       exec env n st (POST {| json := Fulfilled b |}) =
       {| result := Sent invalidRequestResponse; final := st; trace := [] |})
  /\
  (forall t : string, t <> "" ->
     forall tr o, reaches (POST (awardRequest t 0)) tr (Ret o) ->
       o <> Sent invalidRequestResponse /\ (1 <= attempts tr)%nat).
Proof.
  split.
  - intros b Hb.
    assert (Hv : invalidRequest b = true).
    { unfold invalidRequest.
      destruct Hb as [-> | [-> | [-> | (p & -> & Hp)]]]; try reflexivity.
      - apply orb_true_r.
      - apply orb_true_iff. right. by apply Z.ltb_lt. }
    assert (HP : POST {| json := Fulfilled b |} = Ret (Sent invalidRequestResponse)).
    { rewrite POST_unfold. unfold POST_fuel, tryBlock. cbn [json bindJ bind].
      by rewrite Hv. }
    split; [exact HP|]. intros env n st. by rewrite HP.
  - intros t Ht tr o Hr.
    assert (Hv := proj2 (invalidRequest_award t 0) (conj Ht (Z.le_refl 0))).
    apply (onAllPaths_reaches _ []
             (fun tr o => o <> Sent invalidRequestResponse /\ (1 <= attempts tr)%nat))
      in Hr; [exact Hr|].
    rewrite POST_unfold. unfold POST_fuel, tryBlock, awardRequest.
    cbn [json bindJ bind]. rewrite Hv. cbn [telegramId points].
    explore. all: split; [discriminate | lia].
Qed.

(** ** A call running alone *)

(** A call alone on an existing row either commits one update, the last
    thing it does, or leaves the store as it was. *)
Lemma award_alone env n st t p u :
  t <> "" -> 0 <= p -> st !! t = Some u ->
  (exists now,
      result (exec env n st (POST (awardRequest t p))) =
        Sent (successResponse (user.points u + p) (user.pointsBalance u + p) p)
      /\ final (exec env n st (POST (awardRequest t p))) =
           <[t := applyUpdate (awardArgs t p u now) u]> st
      /\ writes (trace (exec env n st (POST (awardRequest t p)))) =
           [(awardArgs t p u now, applyUpdate (awardArgs t p u now) u)]
      /\ lastEvents 5 (trace (exec env n st (POST (awardRequest t p)))) =
           committingAttempt t p u now)
  \/ (succeeded (result (exec env n st (POST (awardRequest t p)))) = false
      /\ final (exec env n st (POST (awardRequest t p))) = st
      /\ writes (trace (exec env n st (POST (awardRequest t p)))) = []).
Proof.
  intros Ht Hp Hst.
  assert (Hv := proj2 (invalidRequest_award t p) (conj Ht Hp)).
  rewrite POST_unfold. unfold POST_fuel, tryBlock, awardRequest.
  cbn [json bindJ bind]. rewrite Hv. cbn [telegramId points].
  run_alone.
  all: first [ right; done | left; eexists; done ].
Qed.

(** With a client that answers the read and the update of the first
    attempt, that attempt commits. *)
Lemma award_alone_first_attempt env n st t p u :
  t <> "" -> 0 <= p -> st !! t = Some u ->
  fault (env (1 + n)%nat) = None -> fault (env (3 + n)%nat) = None ->
  exec env n st (POST (awardRequest t p)) =
    {| result := Sent (successResponse (user.points u + p)
                                       (user.pointsBalance u + p) p);
       final := <[t := applyUpdate (awardArgs t p u (clock (env (2 + n)%nat))) u]> st;
       trace := committingAttempt t p u (clock (env (2 + n)%nat)) |}.
Proof.
  intros Ht Hp Hst Hf1 Hf3.
  assert (Hv := proj2 (invalidRequest_award t p) (conj Ht Hp)).
  rewrite POST_unfold. unfold POST_fuel, tryBlock, awardRequest.
  cbn [json bindJ bind]. rewrite Hv. cbn [telegramId points].
  cbn in Hf1, Hf3. cbn. unfold gatewayFind. rewrite Hf1, Hst. cbn.
  unfold gatewayUpdate. rewrite Hf3. cbn. rewrite Hst, Z.eqb_refl. reflexivity.
Qed.

(** C3.  For a well-formed request whose [telegramId] has no row, a call
    whose read is answered returns status 404 with "User not found"; its
    only events are the opening of one transaction, the read that finds
    nothing, and the rollback: no second attempt and no wait.  Whatever the
    client does, such a call applies no update and leaves the store
    unchanged.  And on every path of a call, in whichever attempt a read
    is answered with the absence of the row, the response is that 404 and
    the call ends with the rollback of that attempt: the outcome is never
    retried. *)
Theorem absent_user_not_found_no_retry env n st t p :
  t <> "" -> 0 <= p -> st !! t = None ->
  (fault (env (S n)) = None ->
   exec env n st (POST (awardRequest t p)) =
     {| result := Sent userNotFoundResponse; final := st;
        trace := [LTxBegin; LFindUnique t (Fulfilled None); LTxEnd false] |})
  /\ final (exec env n st (POST (awardRequest t p))) = st
  /\ writes (trace (exec env n st (POST (awardRequest t p)))) = []
  /\ (forall tr o,
        reaches (POST (awardRequest t p)) tr (Ret o) ->
        (0 < absentReads tr)%nat ->
        o = Sent userNotFoundResponse
        /\ absentReads tr = 1%nat
        /\ lastEvents 2 tr = [LFindUnique t (Fulfilled None); LTxEnd false]).
Proof.
  intros Ht Hp Hst.
  rewrite (POST_award t p Ht Hp).
  split; [|split; [|split]].
  - intros Hf. cbn. unfold gatewayFind. rewrite Hf, Hst. cbn. reflexivity.
  - run_alone. all: done.
  - run_alone. all: done.
  - intros tr o Hr. rewrite <- (POST_award t p Ht Hp) in Hr.
    refine (onAllPaths_reaches (POST (awardRequest t p)) [] (fun tr o =>
              (0 < absentReads tr)%nat ->
              o = Sent userNotFoundResponse
              /\ absentReads tr = 1%nat
              /\ lastEvents 2 tr = [LFindUnique t (Fulfilled None); LTxEnd false])
            tr o _ Hr).
    apply POST_cases.
    + intros e [=].
    + intros b _ _. cbn. lia.
    + intros t' p' [= <- <-] _ _. explore.
      all: intros Habs; try (exfalso; lia).
      all: repeat split.
Qed.



(** C8.  The award is not idempotent: for an existing row and [d >= 0],
    two calls with the same request, one after the other and both
    successful, leave [pointsBalance] and [points] at their old values plus
    [2 * d]; for [d > 0] that is not the old value plus [d]. *)
Theorem award_twice_adds_twice env1 env2 st t d u :
  t <> "" -> 0 <= d -> st !! t = Some u ->
  let r1 := exec env1 0 st (POST (awardRequest t d)) in
  let r2 := exec env2 0 (final r1) (POST (awardRequest t d)) in
  succeeded (result r1) = true -> succeeded (result r2) = true ->
  exists u2,
    final r2 !! t = Some u2
    /\ user.pointsBalance u2 = user.pointsBalance u + 2 * d
    /\ user.points u2 = user.points u + 2 * d
    /\ (0 < d -> user.pointsBalance u2 <> user.pointsBalance u + d).
Proof.
  intros Ht Hd Hst r1 r2 H1 H2. subst r1 r2.
  destruct (award_alone env1 0 st t d u Ht Hd Hst)
    as [(now1 & _ & Hfin1 & _) | (Hno & _)]; [|congruence].
  rewrite Hfin1 in H2 |- *.
  set (u' := applyUpdate (awardArgs t d u now1) u) in *.
  assert (Hst' : <[t := u']> st !! t = Some u') by apply lookup_insert_eq.
  destruct (award_alone env2 0 _ t d u' Ht Hd Hst')
    as [(now2 & _ & Hfin2 & _) | (Hno & _)]; [|congruence].
  rewrite Hfin2. eexists. split; [apply lookup_insert_eq|].
  cbn. repeat split; lia.
Qed.

Lemma award_twice_adds_twice_witness :
  exists u2,
    final (exec (calm 3000) 0
             (final (exec (calm 2000) 0 st1 (POST (awardRequest "u1" 5))))
             (POST (awardRequest "u1" 5))) !! "u1" = Some u2
    /\ user.pointsBalance u2 = 100 + 2 * 5
    /\ user.points u2 = 100 + 2 * 5
    /\ (0 < 5 -> user.pointsBalance u2 <> 100 + 5).
Proof.
  apply (award_twice_adds_twice (calm 2000) (calm 3000) st1 "u1" 5 u1);
    [done | lia | reflexivity | reflexivity | reflexivity].
Defined.

Lemma absent_user_not_found_no_retry_witness :
  exec (calm 2000) 0 st1 (POST (awardRequest "ghost" 10)) =
    {| result := Sent userNotFoundResponse; final := st1;
       trace := [LTxBegin; LFindUnique "ghost" (Fulfilled None); LTxEnd false] |}
  /\ absentReads (trace (exec (calm 2000) 0 st1 (POST (awardRequest "ghost" 10))))
     = 1%nat.
Proof.
  destruct (absent_user_not_found_no_retry (calm 2000) 0 st1 "ghost" 10)
    as (Hrun & _ & _ & Hpath); [done | lia | reflexivity |].
  split; [exact (Hrun eq_refl)|].
  destruct (Hpath _ _ (exec_reaches (calm 2000) 0%nat st1 _)) as (_ & Habs & _);
    [vm_compute; lia | exact Habs].
Defined.

Lemma invalid_request_rejected_before_any_transaction_witness :
  POST {| json := Fulfilled {| telegramId := Some "u1"; points := Some (-5) |} |}
    = Ret (Sent invalidRequestResponse)
  /\ result (exec (calm 2000) 0 st1 (POST (awardRequest "u1" 0)))
       <> Sent invalidRequestResponse.
Proof.
  destruct invalid_request_rejected_before_any_transaction as [Hbad Hzero].
  split.
  - apply (Hbad {| telegramId := Some "u1"; points := Some (-5) |}).
    right; right; right. exists (-5). split; [reflexivity | lia].
  - apply (Hzero "u1" ltac:(done) _ _ (exec_reaches (calm 2000) 0%nat st1 _)).
Defined.

(** ** All paths of the handler *)

(** C5.  Every call ends: each of its paths has at most eighteen events,
    and a run always ends with a response (it neither falls out of the loop
    nor runs out of fuel).  On every path at most three transactions are
    opened, so there is no fourth attempt; and when the update was refused
    in three attempts, the last time with an error that is not taken for a
    missing user (such as the refusal for a stale stamp, [recordNotFound]),
    the response is status 500 with
    "Failed to add points after multiple attempts". *)
Theorem at_most_three_attempts (req : NextRequest) :
  endsWithin 18 (POST req)
  /\ (forall env n st, exists resp, result (exec env n st (POST req)) = Sent resp)
  /\ (forall tr o, reaches (POST req) tr (Ret o) ->
        (attempts tr <= Z.to_nat MAX_RETRIES)%nat
        /\ (length (updateRejections tr) = 3%nat ->
            (forall e, last (updateRejections tr) = Some e ->
                       isErrorIncluding e "User not found" = false) ->
            o = Sent exhaustedRetriesResponse /\ attempts tr = 3%nat)
        /\ (updateRejections tr = [recordNotFound; recordNotFound; recordNotFound] ->
            o = Sent exhaustedRetriesResponse)).
Proof.
  split; [apply POST_endsWithin|]. split.
  - intros env n st.
    destruct (onAllPaths_reaches _ [] _ _ _ (POST_responds req)
                (exec_reaches env n st (POST req))) as (r & Hr & _).
    by exists r.
  - intros tr o Hr.
    apply (onAllPaths_reaches _ [] (fun tr o =>
             (attempts tr <= Z.to_nat MAX_RETRIES)%nat
             /\ (length (updateRejections tr) = 3%nat ->
                 (forall e, last (updateRejections tr) = Some e ->
                            isErrorIncluding e "User not found" = false) ->
                 o = Sent exhaustedRetriesResponse /\ attempts tr = 3%nat)
             /\ (updateRejections tr = [recordNotFound; recordNotFound; recordNotFound] ->
                 o = Sent exhaustedRetriesResponse))) in Hr; [exact Hr|].
    apply POST_cases.
    + intros e _. cbn. repeat split; try discriminate. vm_compute; lia.
    + intros b _ _. cbn. repeat split; try discriminate. lia.
    + intros t p _ _ _. explore.
      all: change (Z.to_nat MAX_RETRIES) with 3%nat.
      all: split; [lia|]; split; try discriminate.
      all: try (intros _ Hlast; specialize (Hlast _ eq_refl); congruence).
      all: try (intros [= _ _ ->]; discriminate).
      all: auto.
Qed.

(** C7.  On every path of a call, the waits are those of the formula
    [RETRY_DELAY * 2 ^ retries] taken after [retries] has been incremented:
    the attempt number [k + 1] (for [k] = 1, 2), when it is made, is
    immediately preceded by a wait of [100 * 2 ^ k], that is 200 before the
    second attempt and 400 before the third; the first attempt is preceded
    by no wait, there is no other wait, and no wait is of 100. *)
Theorem backoff_delays_200_then_400 (req : NextRequest) tr o :
  reaches (POST req) tr (Ret o) ->
  waitsBefore None tr = take (attempts tr) [None; Some 200; Some 400]
  /\ delays tr =
       map (fun k => RETRY_DELAY * 2 ^ Z.of_nat k) (seq 1 (attempts tr - 1))
  /\ delays tr = take (attempts tr - 1) [200; 400]
  /\ 100 ∉ delays tr.
Proof.
  intros Hr.
  apply (onAllPaths_reaches _ [] (fun tr o =>
           waitsBefore None tr = take (attempts tr) [None; Some 200; Some 400]
           /\ delays tr =
                map (fun k => RETRY_DELAY * 2 ^ Z.of_nat k)
                    (seq 1 (attempts tr - 1))
           /\ delays tr = take (attempts tr - 1) [200; 400]
           /\ 100 ∉ delays tr)) in Hr; [exact Hr|].
  apply POST_cases.
  - intros e _. cbn. repeat split. apply not_elem_of_nil.
  - intros b _ _. cbn. repeat split. apply not_elem_of_nil.
  - intros t p _ _ _. explore.
    all: repeat split; try reflexivity.
    all: rewrite ?not_elem_of_cons; repeat split; try discriminate.
    all: apply not_elem_of_nil.
Qed.

(** C9.  The classification is by the text of the message.  (a) On every
    path of a call, if a call of the client inside an attempt (the read or
    the update) is rejected with an [Error] whose message contains
    "User not found", the response is status 404 with "User not found";
    that rejection is the last one, its attempt is the last one, and no
    wait follows it.  (b) This holds of errors that do not come from the
    check of the row: when the read of the first attempt fails with such an
    error, a call alone returns the 404 after that single attempt, whether
    or not the row exists, and leaves the store as it was. *)
Theorem not_found_classified_by_message :
  (forall (req : NextRequest) tr o,
     reaches (POST req) tr (Ret o) ->
     forall k e,
       rejections tr !! k = Some e ->
       isErrorIncluding e "User not found" = true ->
       o = Sent userNotFoundResponse
       /\ length (rejections tr) = S k
       /\ attempts tr = S k
       /\ length (delays tr) = k
       /\ lastEvents 1 tr = [LTxEnd false])
  /\
  (forall env st t p message,
     t <> "" -> 0 <= p ->
     includes message "User not found" = true ->
     fault (env 1%nat) = Some (JsError message) ->
     exec env 0 st (POST (awardRequest t p)) =
       {| result := Sent userNotFoundResponse; final := st;
          trace := [LTxBegin; LFindUnique t (Rejected (JsError message));
                    LTxEnd false] |}).
Proof.
  split.
  - intros req tr o Hr.
    refine (onAllPaths_reaches (POST req) [] (fun tr o =>
             forall k e,
               rejections tr !! k = Some e ->
               isErrorIncluding e "User not found" = true ->
               o = Sent userNotFoundResponse
               /\ length (rejections tr) = S k
               /\ attempts tr = S k
               /\ length (delays tr) = k
               /\ lastEvents 1 tr = [LTxEnd false]) tr o _ Hr).
    apply POST_cases.
    + intros e _ k e' Hk. by destruct k.
    + intros b _ _ k e' Hk. by destruct k.
    + intros t p _ _ _. explore.
      all: intros k e' Hk He'.
      all: destruct k as [|[|[|k]]]; cbn in Hk; try discriminate Hk.
      all: injection Hk as <-; try congruence.
      all: repeat split; reflexivity.
  - intros env st t p message Ht Hp Hm Hf.
    assert (Hv := proj2 (invalidRequest_award t p) (conj Ht Hp)).
    rewrite POST_unfold. unfold POST_fuel, tryBlock, awardRequest.
    cbn [json bindJ bind]. rewrite Hv. cbn [telegramId points].
    cbn. unfold gatewayFind. rewrite Hf. cbn. rewrite Hm. reflexivity.
Qed.

(** C6, as the code has it.  Every failure inside a transaction attempt is
    retried unless it is taken for a missing user, whatever its kind: on
    every path of a call, when the [k]-th rejected call of the client
    (counting from 0) has an error that is not an [Error] whose message
    contains "User not found", then [k] is at most 2; for [k < 2] a further
    attempt is made, after a wait of [RETRY_DELAY * 2 ^ (k + 1)]; for
    [k = 2] the response is status 500 with
    "Failed to add points after multiple attempts".  The response
    "Internal server error" is sent only when the body of the request could
    not be read, in which case no attempt is made. *)
Theorem every_other_failure_is_retried (req : NextRequest) tr o :
  reaches (POST req) tr (Ret o) ->
  (forall k e,
     rejections tr !! k = Some e ->
     isErrorIncluding e "User not found" = false ->
     (k < 3)%nat
     /\ ((k < 2)%nat ->
         (k + 2 <= attempts tr)%nat
         /\ delays tr !! k = Some (RETRY_DELAY * 2 ^ (Z.of_nat k + 1)))
     /\ (k = 2%nat -> o = Sent exhaustedRetriesResponse))
  /\ (o = Sent internalErrorResponse ->
      attempts tr = 0%nat /\ exists e, json req = Rejected e).
Proof.
  intros Hr.
  refine (onAllPaths_reaches (POST req) [] (fun tr o =>
           (forall k e,
              rejections tr !! k = Some e ->
              isErrorIncluding e "User not found" = false ->
              (k < 3)%nat
              /\ ((k < 2)%nat ->
                  (k + 2 <= attempts tr)%nat
                  /\ delays tr !! k = Some (RETRY_DELAY * 2 ^ (Z.of_nat k + 1)))
              /\ (k = 2%nat -> o = Sent exhaustedRetriesResponse))
           /\ (o = Sent internalErrorResponse ->
               attempts tr = 0%nat /\ exists e, json req = Rejected e))
          tr o _ Hr).
  apply POST_cases.
  - intros e He. split; [intros k e' Hk; by destruct k|]. intros _. eauto.
  - intros b _ _. split; [intros k e' Hk; by destruct k | discriminate].
  - intros t p _ _ _. explore.
    all: split; [|discriminate].
    all: intros k e' Hk He'.
    all: destruct k as [|[|[|k]]]; cbn in Hk; try discriminate Hk.
    all: injection Hk as <-; try congruence.
    all: split; [lia|]; split; [intros ?; try lia | intros ?; try lia].
    all: try (split; [cbn; lia | reflexivity]).
    all: reflexivity.
Qed.

(** ** Calls interleaved on one store *)

Section Credit.
Variable w : string.

Lemma credited_app (t t' : list Label) :
  credited w (t ++ t') = credited w t + credited w t'.
Proof.
  induction t as [|l t IH]; simpl; [lia|].
  destruct l as [| | |a [u|e]| | |]; simpl; lia.
Qed.

Lemma creditedPoints_app (t t' : list Label) :
  creditedPoints w (t ++ t') = creditedPoints w t + creditedPoints w t'.
Proof.
  induction t as [|l t IH]; simpl; [lia|].
  destruct l as [| | |a [u|e]| | |]; simpl; lia.
Qed.

(** One event changes the row [w] by what the event credits to it. *)
Lemma step_credit {A : Type} c (st : Store) (p : Prog A) l st' p' u :
  step c st p = Some (l, st', p') ->
  st !! w = Some u ->
  exists u',
    st' !! w = Some u'
    /\ user.pointsBalance u' = user.pointsBalance u + credited w [l]
    /\ user.points u' = user.points u + creditedPoints w [l].
Proof.
  intros Hs Hw.
  destruct p as [a|k|x k|k|args k|b k|m e k|ms k]; simpl in Hs;
    try discriminate Hs; injection Hs as <- <- <-;
    try (exists u; simpl; repeat split; [done | lia | lia]).
  unfold gatewayUpdate.
  destruct (fault c) as [e|]; simpl.
  { exists u. repeat split; (done || lia). }
  destruct (st !! whereTelegramId args) as [v|] eqn:Hv; simpl.
  2: { exists u. repeat split; (done || lia). }
  destruct (user.lastPointsUpdateTimestamp v =? _); simpl.
  2: { exists u. repeat split; (done || lia). }
  destruct (String.eqb_spec (whereTelegramId args) w) as [Heq|Hne].
  - subst w. rewrite Hv in Hw. injection Hw as ->.
    exists (applyUpdate args u). rewrite lookup_insert_eq. simpl.
    repeat split; lia.
  - exists u. rewrite lookup_insert_ne by done. repeat split; (done || lia).
Qed.
End Credit.

Lemma sumZ_insert {A : Type} (f : A -> Z) (l : list A) (i : nat) (x y : A) :
  l !! i = Some x ->
  sumZ (map f (<[i := y]> l)) = sumZ (map f l) - f x + f y.
Proof.
  revert i. induction l as [|a l IH]; intros [|i] H; simpl in *;
    try discriminate.
  - injection H as ->. lia.
  - rewrite (IH i H). lia.
Qed.

Lemma reaches_snoc {A : Type} (p p' p'' : Prog A) t l :
  reaches p t p' -> lstep p' l p'' -> reaches p (t ++ [l]) p''.
Proof.
  intros H Hs. eapply reaches_trans; [exact H|].
  eapply reaches_step; [exact Hs | constructor].
Qed.

Lemma poolStep_accounted w b0 p0 P ic :
  accounted w b0 p0 P -> accounted w b0 p0 (poolStep P ic).
Proof.
  intros (u & Hu & Hb & Hp). unfold poolStep.
  destruct (threads P !! ic.1) as [th|] eqn:Hth; [|by exists u].
  destruct (step ic.2 (store P) (code th)) as [[[l st'] p']|] eqn:Hs;
    [|by exists u].
  destruct (step_credit w _ _ _ _ _ _ u Hs Hu) as (u' & Hu' & Hb' & Hp').
  exists u'. simpl. split; [exact Hu'|].
  rewrite (sumZ_insert (fun th => credited w (log th)) _ _ th _ Hth).
  rewrite (sumZ_insert (fun th => creditedPoints w (log th)) _ _ th _ Hth).
  simpl. rewrite credited_app, creditedPoints_app. lia.
Qed.

Lemma poolStep_onTrack reqs P ic :
  onTrack reqs P -> onTrack reqs (poolStep P ic).
Proof.
  unfold onTrack, poolStep. intros HF.
  destruct (threads P !! ic.1) as [th|] eqn:Hth; [|done].
  destruct (step ic.2 (store P) (code th)) as [[[l st'] p']|] eqn:Hs; [|done].
  simpl. revert HF Hth. generalize (threads P) (ic.1). clear -Hs.
  intros ths i HF. revert i.
  induction HF as [|req th0 reqs ths Hr HF IH]; intros [|i] Hth;
    simpl in *; try discriminate.
  - injection Hth as ->. constructor; [|done]. simpl.
    eapply reaches_snoc; [exact Hr|]. by eapply step_lstep.
  - constructor; [done|]. by apply IH.
Qed.

Lemma runPool_invariant (I : Pool -> Prop) schedule P :
  (forall P ic, I P -> I (poolStep P ic)) -> I P -> I (runPool schedule P).
Proof.
  intros Hstep. unfold runPool. revert P.
  induction schedule as [|ic schedule IH]; intros P HP; simpl; [done|].
  apply IH, Hstep, HP.
Qed.

Lemma spawn_accounted w u st reqs :
  st !! w = Some u ->
  accounted w (user.pointsBalance u) (user.points u) (spawn st reqs).
Proof.
  intros Hu. exists u. simpl. split; [done|].
  rewrite !map_map. simpl.
  assert (H0 : sumZ (map (fun _ : NextRequest => 0) reqs) = 0)
    by (induction reqs; simpl; lia).
  rewrite H0. lia.
Qed.

Lemma spawn_onTrack st reqs : onTrack reqs (spawn st reqs).
Proof.
  unfold onTrack, spawn. simpl.
  induction reqs; simpl; constructor; [constructor | done].
Qed.

Lemma onTrack_bounded reqs P :
  onTrack reqs P -> Forall (fun th => (length (log th) <= 18)%nat) (threads P).
Proof.
  unfold onTrack. induction 1 as [|req th reqs ths Hr _ IH]; constructor;
    [|exact IH].
  eapply endsWithin_reaches; [apply POST_endsWithin | exact Hr].
Qed.

(** On every path of a call for [d] points on [t], the updates applied
    credit [d] to the row [t] when the call returns a success, and nothing
    otherwise. *)
Lemma POST_credit (t : string) (d : Z) tr o :
  reaches (POST (awardRequest t d)) tr (Ret o) ->
  credited t tr = (if succeeded o then d else 0)
  /\ creditedPoints t tr = (if succeeded o then d else 0).
Proof.
  intros Hr.
  refine (onAllPaths_reaches (POST (awardRequest t d)) [] (fun tr o =>
            credited t tr = (if succeeded o then d else 0)
            /\ creditedPoints t tr = (if succeeded o then d else 0))
          tr o _ Hr).
  apply POST_cases.
  - intros e [=].
  - intros b _ _. by cbn.
  - intros t' d' [= <- <-] _ _. explore.
    all: rewrite ?String.eqb_refl; split; reflexivity || lia.
Qed.

Lemma POST_writes (t : string) (d : Z) tr o :
  reaches (POST (awardRequest t d)) tr (Ret o) ->
  if succeeded o
  then exists dbUser now u', writes tr = [(awardArgs t d dbUser now, u')]
  else writes tr = [].
Proof.
  intros Hr.
  refine (onAllPaths_reaches (POST (awardRequest t d)) [] (fun tr o =>
            if succeeded o
            then exists dbUser now u', writes tr = [(awardArgs t d dbUser now, u')]
            else writes tr = [])
          tr o _ Hr).
  apply POST_cases.
  - intros e [=].
  - intros b _ _. by cbn.
  - intros t' d' [= <- <-] _ _. explore.
    all: first [ reflexivity | by eexists _, _, _ ].
Qed.

Lemma finished_threads_credit (t : string) (ds : list Z) (ths : list Thread) :
  onTrack (map (awardRequest t) ds) {| store := ∅; threads := ths |} ->
  forallb finished ths = true ->
  sumZ (map (fun th => credited t (log th)) ths) = sumZ (zip_with awardedBy ds ths)
  /\ sumZ (map (fun th => creditedPoints t (log th)) ths)
       = sumZ (zip_with awardedBy ds ths)
  /\ Forall2 (appliedOnce t) ds ths.
Proof.
  unfold onTrack. simpl. revert ths.
  induction ds as [|d ds IH]; intros ths HF Hfin; inversion HF as [|? th ? ths' Hr HF']; subst.
  - simpl. repeat split; constructor.
  - simpl in Hfin. apply andb_true_iff in Hfin as [Hth Hfin].
    destruct (IH ths' HF' Hfin) as (Hb & Hp & Ha).
    unfold finished in Hth. destruct th as [c lg]. simpl in *.
    destruct c as [o| | | | | | |]; try discriminate Hth.
    destruct (POST_credit t d lg o Hr) as [Hcb Hcp].
    pose proof (POST_writes t d lg o Hr) as Hw.
    unfold awardedBy at 1 3, appliedOnce, committed. simpl.
    rewrite Hb, Hp, Hcb, Hcp. repeat split.
    constructor; [exact Hw | exact Ha].
Qed.

(** C2.  Any number of calls for the same existing [telegramId], with
    deltas [ds], interleaved on one store by any schedule (each event of a
    call is one step; the client may fail at any call, and the clock may
    show anything).  No call takes more than eighteen steps, so every call
    returns once it has been scheduled that often; and once every call has
    returned, the row's [pointsBalance]
    is its initial value plus the sum of the deltas of the calls that
    returned a success, and so is [points]; each call that returned a
    success has applied exactly one update, with its own delta, and each
    call that returned anything else (such as the 500 after three refused
    attempts) has applied none. *)
Theorem no_lost_update (st : Store) (t : string) (u0 : user.t)
    (ds : list Z) (schedule : list (nat * Choice)) :
  st !! t = Some u0 ->
  let P := runPool schedule (spawn st (map (awardRequest t) ds)) in
  Forall (fun th => (length (log th) <= 18)%nat) (threads P)
  /\ (forallb finished (threads P) = true ->
      exists u,
        store P !! t = Some u
        /\ user.pointsBalance u
           = user.pointsBalance u0 + sumZ (zip_with awardedBy ds (threads P))
        /\ user.points u
           = user.points u0 + sumZ (zip_with awardedBy ds (threads P))
        /\ Forall2 (appliedOnce t) ds (threads P)).
Proof.
  intros Hu0 P. subst P.
  set (P0 := spawn st (map (awardRequest t) ds)) in *.
  split.
  { apply (onTrack_bounded (map (awardRequest t) ds)).
    apply runPool_invariant;
      [intros; by apply poolStep_onTrack | apply spawn_onTrack]. }
  intros Hfin.
  assert (Hacc : accounted t (user.pointsBalance u0) (user.points u0)
                   (runPool schedule P0)).
  { apply runPool_invariant;
      [intros; by apply poolStep_accounted | by apply spawn_accounted]. }
  assert (Htrack : onTrack (map (awardRequest t) ds) (runPool schedule P0)).
  { apply runPool_invariant;
      [intros; by apply poolStep_onTrack | apply spawn_onTrack]. }
  destruct Hacc as (u & Hu & Hb & Hp).
  destruct (finished_threads_credit t ds (threads (runPool schedule P0)))
    as (Hsb & Hsp & Hall); [exact Htrack | exact Hfin |].
  exists u. rewrite Hsb in Hb. rewrite Hsp in Hp. done.
Qed.

Lemma pool_thread_path st reqs schedule i req th :
  reqs !! i = Some req ->
  threads (runPool schedule (spawn st reqs)) !! i = Some th ->
  reaches (POST req) (log th) (code th).
Proof.
  intros Hreq Hth.
  assert (Htrack : onTrack reqs (runPool schedule (spawn st reqs))).
  { apply runPool_invariant;
      [intros; by apply poolStep_onTrack | apply spawn_onTrack]. }
  unfold onTrack in Htrack.
  by apply (Forall2_lookup_lr _ _ _ _ _ _ Htrack Hreq Hth).
Qed.

(** C10, as the code has it.  A request for zero points on an existing row
    passes the validation and, with a client that answers, performs the
    conditional update: [points] and [pointsBalance] keep their values, and
    [lastPointsUpdateTimestamp] is set to the reading of the clock.  The
    row is changed exactly when that reading differs from the stamp it
    had.  When it differs, the zero award makes an award in flight on the
    same row fail its update: a call that has read the row before the zero
    award commits is refused for the stale stamp.  When the reading is the
    stamp the row had, the row is left as it was and the award in flight
    commits. *)
Theorem zero_award_sets_stamp env st t u :
  t <> "" -> st !! t = Some u ->
  fault (env 1%nat) = None -> fault (env 3%nat) = None ->
  let now := clock (env 2%nat) in
  let u' := {| user.telegramId := user.telegramId u;
               user.points := user.points u;
               user.pointsBalance := user.pointsBalance u;
               user.lastPointsUpdateTimestamp := now |} in
  exec env 0 st (POST (awardRequest t 0)) =
    {| result := Sent (successResponse (user.points u) (user.pointsBalance u) 0);
       final := <[t := u']> st;
       trace := [LTxBegin;
                 LFindUnique t (Fulfilled (Some u));
                 LNewDate now;
                 LUpdate (awardArgs t 0 u now) (Fulfilled u');
                 LTxEnd true] |}
  /\ (u' = u <-> now = user.lastPointsUpdateTimestamp u)
  /\ (forall d, 0 <= d -> now <> user.lastPointsUpdateTimestamp u ->
      let P := runPool (turns 0 2 now ++ turns 1 5 now ++ turns 0 3 now)
                       (spawn st [awardRequest t d; awardRequest t 0]) in
      store P = <[t := u']> st
      /\ map committed (threads P) = [false; true]
      /\ map finished (threads P) = [false; true]
      /\ map log (threads P) =
           [ [LTxBegin;
              LFindUnique t (Fulfilled (Some u));
              LNewDate now;
              LUpdate (awardArgs t d u now) (Rejected recordNotFound);
              LTxEnd false];
             [LTxBegin;
              LFindUnique t (Fulfilled (Some u));
              LNewDate now;
              LUpdate (awardArgs t 0 u now) (Fulfilled u');
              LTxEnd true] ])
  /\ (forall d, 0 <= d -> now = user.lastPointsUpdateTimestamp u ->
      let P := runPool (turns 0 2 now ++ turns 1 5 now ++ turns 0 3 now)
                       (spawn st [awardRequest t d; awardRequest t 0]) in
      store P !! t =
        Some {| user.telegramId := user.telegramId u;
                user.points := user.points u + d;
                user.pointsBalance := user.pointsBalance u + d;
                user.lastPointsUpdateTimestamp := now |}
      /\ map committed (threads P) = [true; true]
      /\ map (fun th => updateRejections (log th)) (threads P) = [[]; []]).
Proof.
  intros Ht Hst Hf1 Hf3 now u'.
  assert (Hu' : applyUpdate (awardArgs t 0 u now) u = u').
  { unfold applyUpdate, u'. cbn. by rewrite !Z.add_0_r. }
  split; [|split; [|split]].
  - rewrite (award_alone_first_attempt env 0 st t 0 u Ht (Z.le_refl 0) Hst Hf1 Hf3).
    cbn [Nat.add]. fold now. unfold committingAttempt. rewrite Hu'.
    by rewrite !Z.add_0_r.
  - split.
    + intros Heq. by rewrite <- Heq.
    + intros Heq. unfold u'. rewrite Heq. by destruct u.
  - intros d Hd Hne P. subst P.
    unfold spawn, runPool, turns. cbn [map].
    rewrite (POST_award t d Ht Hd), (POST_award t 0 Ht (Z.le_refl 0)).
    repeat first
      [ progress cbn
      | known_tests
      | rewrite Hst
      | rewrite lookup_insert_eq
      | rewrite Z.eqb_refl
      | rewrite (proj2 (Z.eqb_neq _ _) Hne) ].
    fold (awardArgs t 0 u now) (awardArgs t d u now). rewrite Hu'.
    rewrite ?Z.add_0_r. repeat split.
  - intros d Hd Heq P. subst P.
    unfold spawn, runPool, turns. cbn [map].
    rewrite (POST_award t d Ht Hd), (POST_award t 0 Ht (Z.le_refl 0)).
    repeat first
      [ progress cbn
      | known_tests
      | rewrite Hst
      | rewrite lookup_insert_eq
      | rewrite Z.eqb_refl
      | rewrite (proj2 (Z.eqb_eq _ _) Heq) ].
    repeat split.
    fold (awardArgs t 0 u now). rewrite Hu'.
    unfold applyUpdate, u'. by cbn.
Qed.

Lemma zero_award_sets_stamp_witness :
  final (exec (calm 2000) 0 st1 (POST (awardRequest "u1" 0))) !! "u1" =
    Some {| user.telegramId := "u1"; user.points := 100;
            user.pointsBalance := 100;
            user.lastPointsUpdateTimestamp := 2000 |}
  /\ map committed
       (threads (runPool (turns 0 2 2000 ++ turns 1 5 2000 ++ turns 0 3 2000)
                         (spawn st1 [awardRequest "u1" 10; awardRequest "u1" 0])))
     = [false; true].
Proof.
  destruct (zero_award_sets_stamp (calm 2000) st1 "u1" u1)
    as (Hrun & _ & Hpool & _); [done | reflexivity | reflexivity | reflexivity |].
  split.
  - rewrite Hrun. apply lookup_insert_eq.
  - destruct (Hpool 10) as (_ & Hc & _); [lia | discriminate | exact Hc].
Defined.

(** C10, a run against it.  The clock shows 1000, the stamp the row
    already has.  The zero award succeeds and leaves the store exactly as
    it was, stamp included; and the award for 10 points that had read the
    row before the zero award committed is not refused: both calls commit,
    with no update rejected. *)
Lemma zero_award_in_the_same_millisecond :
  result (exec (calm 1000) 0 st1 (POST (awardRequest "u1" 0)))
    = Sent (successResponse 100 100 0)
  /\ final (exec (calm 1000) 0 st1 (POST (awardRequest "u1" 0))) !! "u1"
     = st1 !! "u1"
  /\ user.lastPointsUpdateTimestamp u1 = 1000
  /\ map committed
       (threads (runPool (turns 0 2 1000 ++ turns 1 5 1000 ++ turns 0 3 1000)
                         (spawn st1 [awardRequest "u1" 10; awardRequest "u1" 0])))
     = [true; true]
  /\ map (fun th => rejections (log th))
       (threads (runPool (turns 0 2 1000 ++ turns 1 5 1000 ++ turns 0 3 1000)
                         (spawn st1 [awardRequest "u1" 10; awardRequest "u1" 0])))
     = [[]; []].
Proof. repeat split; reflexivity. Qed.

Lemma no_lost_update_witness :
  let P := runPool racing (spawn st1 (map (awardRequest "u1") [10; 15])) in
  exists u,
    store P !! "u1" = Some u
    /\ user.pointsBalance u = 125
    /\ map (fun th => length (updateRejections (log th))) (threads P)
       = [0%nat; 1%nat].
Proof.
  intros P.
  destruct (no_lost_update st1 "u1" u1 [10; 15] racing) as [_ Hdone];
    [reflexivity|].
  destruct Hdone as (u & Hu & Hb & _ & _); [reflexivity|].
  exists u. split; [exact Hu|]. split; [|reflexivity].
  rewrite Hb. reflexivity.
Defined.

Lemma at_most_three_attempts_witness :
  let P := runPool starving (spawn st1 (map (awardRequest "u1") [7; 1; 2; 3])) in
  exists th,
    threads P !! 0%nat = Some th
    /\ updateRejections (log th) = [recordNotFound; recordNotFound; recordNotFound]
    /\ (attempts (log th) <= 3)%nat
    /\ code th = Ret (Sent exhaustedRetriesResponse).
Proof.
  intros P.
  destruct (threads P !! 0%nat) as [th|] eqn:Hth;
    [|vm_compute in Hth; discriminate Hth].
  pose proof (pool_thread_path st1 (map (awardRequest "u1") [7; 1; 2; 3])
                starving 0 (awardRequest "u1" 7) th eq_refl Hth) as Hr.
  vm_compute in Hth. injection Hth as <-.
  eexists. split; [reflexivity|]. split; [reflexivity|].
  destruct (at_most_three_attempts (awardRequest "u1" 7)) as (_ & _ & Hp).
  destruct (Hp _ _ Hr) as (Hle & _ & Hconf).
  split; [exact Hle|]. exact (f_equal Ret (Hconf eq_refl)).
Defined.

Lemma backoff_delays_200_then_400_witness :
  let P := runPool starving (spawn st1 (map (awardRequest "u1") [7; 1; 2; 3])) in
  exists th,
    threads P !! 0%nat = Some th
    /\ attempts (log th) = 3%nat
    /\ waitsBefore None (log th) = [None; Some 200; Some 400]
    /\ delays (log th) = [200; 400].
Proof.
  intros P.
  destruct (threads P !! 0%nat) as [th|] eqn:Hth;
    [|vm_compute in Hth; discriminate Hth].
  pose proof (pool_thread_path st1 (map (awardRequest "u1") [7; 1; 2; 3])
                starving 0 (awardRequest "u1" 7) th eq_refl Hth) as Hr.
  vm_compute in Hth. injection Hth as <-.
  eexists. split; [reflexivity|]. split; [reflexivity|].
  destruct (backoff_delays_200_then_400 _ _ _ Hr) as (Hw & _ & Hd & _).
  split; [exact Hw | exact Hd].
Defined.

Lemma not_found_classified_by_message_witness :
  exec (failing misleading [1%nat] 2000) 0 st1 (POST (awardRequest "u1" 20)) =
    {| result := Sent userNotFoundResponse; final := st1;
       trace := [LTxBegin; LFindUnique "u1" (Rejected misleading); LTxEnd false] |}
  /\ st1 !! "u1" = Some u1
  /\ attempts (trace (exec (failing misleading [1%nat] 2000) 0 st1
                        (POST (awardRequest "u1" 20)))) = 1%nat.
Proof.
  destruct not_found_classified_by_message as [Hpath Hrun].
  split; [|split; [reflexivity|]].
  - apply (Hrun (failing misleading [1%nat] 2000) st1 "u1" 20
                "Replica lag: User not found on the read replica");
      [done | lia | reflexivity | reflexivity].
  - destruct (Hpath (awardRequest "u1" 20) _ _
                (exec_reaches (failing misleading [1%nat] 2000) 0%nat st1 _)
                0%nat misleading eq_refl eq_refl) as (_ & _ & Ha & _).
    exact Ha.
Defined.

(** C6, a run against it.  The read of the first attempt fails because the
    database cannot be reached, which is no conflict and is not taken for a
    missing user; the handler does not return: it waits 200, opens a second
    transaction, and that attempt commits. *)
Lemma gateway_failure_is_retried :
  rejections (trace (exec (failing unreachable [1%nat] 2000) 0 st1
                       (POST (awardRequest "u1" 20)))) = [unreachable]
  /\ unreachable <> recordNotFound
  /\ exec (failing unreachable [1%nat] 2000) 0 st1 (POST (awardRequest "u1" 20)) =
       {| result := Sent (successResponse 120 120 20);
          final := <["u1" := {| user.telegramId := "u1"; user.points := 120;
                                user.pointsBalance := 120;
                                user.lastPointsUpdateTimestamp := 2000 |}]> st1;
          trace := [LTxBegin;
                    LFindUnique "u1" (Rejected unreachable);
                    LTxEnd false;
                    LSetTimeout 200]
                   ++ committingAttempt "u1" 20 u1 2000 |}
  /\ attempts (trace (exec (failing unreachable [1%nat] 2000) 0 st1
                        (POST (awardRequest "u1" 20)))) = 2%nat.
Proof.
  split; [reflexivity|]. split; [discriminate|]. split; reflexivity.
Qed.

Lemma every_other_failure_is_retried_witness :
  (2 <= attempts (trace (exec (failing unreachable [1%nat] 2000) 0 st1
                           (POST (awardRequest "u1" 20)))))%nat
  /\ delays (trace (exec (failing unreachable [1%nat] 2000) 0 st1
                      (POST (awardRequest "u1" 20)))) !! 0%nat = Some 200.
Proof.
  destruct (every_other_failure_is_retried (awardRequest "u1" 20) _ _
              (exec_reaches (failing unreachable [1%nat] 2000) 0%nat st1 _))
    as [Hk _].
  destruct (Hk 0%nat unreachable eq_refl eq_refl) as (_ & Hretry & _).
  destruct (Hretry ltac:(lia)) as [Ha Hd].
  split; [exact Ha | exact Hd].
Defined.

(** ** The spinner *)

Lemma scan_range {num : Type} (sub : num -> num -> num) (np : num -> bool)
    (weights : list num) (i : Z) (roll : num) (j : Z) :
  Game.scan sub np weights i roll = Some j ->
  i <= j < i + Z.of_nat (length weights).
Proof.
  revert i roll. induction weights as [|w rest IH]; intros i roll; simpl;
    [discriminate|].
  destruct (np (sub roll w)).
  - intros [= <-]. lia.
  - intros H. apply IH in H. lia.
Qed.

Lemma Qle_bool_min (c x : Q) :
  Qle_bool c (Qmin 1 x) = Qle_bool c 1 && Qle_bool c x.
Proof.
  apply eq_true_iff_eq.
  rewrite andb_true_iff, !Qle_bool_iff. apply Q.min_glb_iff.
Qed.

Lemma Qle_bool_quotient (n d : positive) (e : Z) :
  Qle_bool (Z.pos n # d) (inject_Z e / inject_Z Game.minDurationMs)
  = (Z.pos n * 5000 <=? e * Z.pos d).
Proof.
  apply eq_true_iff_eq. rewrite Qle_bool_iff, Z.leb_le.
  unfold Qle, Qdiv, Qmult, Qinv, inject_Z, Game.minDurationMs.
  cbn [Qnum Qden]. lia.
Qed.

Lemma delayOf_progressOf (elapsed : Z) :
  Game.delayOf (Game.progressOf elapsed) =
    if elapsed <? 3000 then 35
    else if elapsed <? 4250 then 90
    else if elapsed <? 4750 then 160
    else 320.
Proof.
  unfold Game.delayOf, Game.progressOf, Game.Qltb.
  rewrite !Qle_bool_min.
  change (0.6%Q) with (6 # 10)%Q. change (0.85%Q) with (85 # 100)%Q.
  change (0.95%Q) with (95 # 100)%Q.
  rewrite !Qle_bool_quotient.
  change (Qle_bool (6 # 10) 1) with true.
  change (Qle_bool (85 # 100) 1) with true.
  change (Qle_bool (95 # 100) 1) with true.
  cbn [andb].
  repeat match goal with
         | |- context [?a <=? ?b] => destruct (Z.leb_spec a b)
         | |- context [?a <? ?b] => destruct (Z.ltb_spec a b)
         end; cbn; try reflexivity; lia.
Qed.

Lemma countEffect_app (P : Game.Effect -> bool) (a b : list Game.Effect) :
  Game.countEffect P (a ++ b) = (Game.countEffect P a + Game.countEffect P b)%nat.
Proof. induction a as [|e a IH]; simpl; [reflexivity | rewrite IH; lia]. Qed.

(** A stop on a slot of the table: the slot is read, it is reported, and
    the clicks are those of its points. *)
Lemma stopEffects_slot (targetFruit : Z) :
  0 <= targetFruit < 10 ->
  exists wonFruit,
    Game.fruits !! Z.to_nat targetFruit = Some wonFruit
    /\ Game.stopEffects targetFruit !! 2%nat =
         Some (Game.SetLastWin (Game.name wonFruit) (Game.points wonFruit)
                               (Game.isLoser wonFruit))
    /\ Game.countEffect Game.isClick (Game.stopEffects targetFruit)
         = Game.clicksFor wonFruit
    /\ Game.countEffect Game.isSpinEnd (Game.stopEffects targetFruit) = 1%nat
    /\ Game.countEffect Game.isPlayTick (Game.stopEffects targetFruit) = 0%nat
    /\ Game.countEffect Game.isTypeError (Game.stopEffects targetFruit) = 0%nat.
Proof.
  intros H.
  assert (Hcases : targetFruit = 0 \/ targetFruit = 1 \/ targetFruit = 2 \/
                   targetFruit = 3 \/ targetFruit = 4 \/ targetFruit = 5 \/
                   targetFruit = 6 \/ targetFruit = 7 \/ targetFruit = 8 \/
                   targetFruit = 9) by lia.
  repeat destruct Hcases as [-> | Hcases]; try subst targetFruit;
    (eexists; split; [reflexivity|]; repeat split; vm_compute; reflexivity).
Qed.

Lemma next_position (currentPosition : Z) :
  0 <= currentPosition < 10 ->
  Z.rem (currentPosition + 1) (Z.of_nat (length Game.fruits))
    = (currentPosition + 1) mod 10
  /\ 0 <= (currentPosition + 1) mod 10 < 10.
Proof.
  intros H. change (Z.of_nat (length Game.fruits)) with 10.
  rewrite Z.rem_mod_nonneg by lia. split; [reflexivity|].
  apply Z.mod_pos_bound. lia.
Qed.

Lemma canStop_elapsed (elapsed : Z) :
  Game.canStop elapsed (Game.delayOf (Game.progressOf elapsed))
    = (elapsed >=? 5000).
Proof.
  unfold Game.canStop, Game.minDurationMs. rewrite delayOf_progressOf.
  destruct (Z.geb_spec elapsed 5000) as [Hge|Hlt]; cbn [andb]; [|reflexivity].
  repeat match goal with
         | |- context [?a <? ?b] => destruct (Z.ltb_spec a b); try lia
         end.
Qed.

(** The two ways a tick ends. *)
Lemma tick_cases (targetFruit currentPosition elapsed : Z) :
  0 <= currentPosition < 10 ->
  let next := (currentPosition + 1) mod 10 in
  (5000 <= elapsed /\ next = targetFruit
   /\ Game.tick targetFruit currentPosition elapsed =
        (next, [Game.SetSelectedFruit next; Game.PlayTick]
                 ++ Game.stopEffects targetFruit, None))
  \/ (~ (5000 <= elapsed /\ next = targetFruit)
      /\ Game.tick targetFruit currentPosition elapsed =
           (next, [Game.SetSelectedFruit next; Game.PlayTick;
                   Game.ScheduleTick (Game.delayOf (Game.progressOf elapsed))],
            Some (Game.delayOf (Game.progressOf elapsed)))).
Proof.
  intros Hpos next. unfold Game.tick.
  destruct (next_position currentPosition Hpos) as [-> _]. fold next.
  rewrite canStop_elapsed.
  destruct (Z.geb_spec elapsed 5000) as [Hge|Hlt]; cbn [andb].
  - destruct (Z.eqb_spec next targetFruit) as [Heq|Hne].
    + left. done.
    + right. split; [tauto | reflexivity].
  - right. split; [lia | reflexivity].
Qed.

(** What a chain of ticks keeps true, from a position on the wheel. *)
Lemma ticks_safe (readings : list Z) (targetFruit currentPosition : Z) :
  0 <= currentPosition < 10 ->
  let s := Game.ticks targetFruit currentPosition readings in
  0 <= Game.position s < 10
  /\ Game.countEffect Game.isTypeError (Game.effects s) = 0%nat
  /\ Game.countEffect Game.isSpinEnd (Game.effects s)
       = (if Game.stopped s then 1 else 0)%nat
  /\ (Game.stopped s = false ->
      Game.countEffect Game.isPlayTick (Game.effects s) = length readings
      /\ Game.countEffect Game.isClick (Game.effects s) = 0%nat
      /\ Game.position s = (currentPosition + Z.of_nat (length readings)) mod 10)
  /\ (Game.stopped s = true ->
      Game.position s = targetFruit
      /\ exists k elapsed wonFruit,
           readings !! k = Some elapsed
           /\ 5000 <= elapsed
           /\ Game.countEffect Game.isPlayTick (Game.effects s) = S k
           /\ targetFruit = (currentPosition + Z.of_nat (S k)) mod 10
           /\ Game.fruits !! Z.to_nat targetFruit = Some wonFruit
           /\ Game.countEffect Game.isClick (Game.effects s)
                = Game.clicksFor wonFruit).
Proof.
  revert currentPosition.
  induction readings as [|elapsed rest IH]; intros pos Hpos; cbn zeta.
  - cbn. repeat split; try lia; try discriminate.
    rewrite Z.add_0_r, Z.mod_small by lia. reflexivity.
  - cbn [Game.ticks].
    destruct (tick_cases targetFruit pos elapsed Hpos)
      as [(Hge & Heq & ->) | (Hno & ->)].
    + assert (Hin : 0 <= targetFruit < 10).
      { rewrite <- Heq. apply Z.mod_pos_bound. lia. }
      destruct (stopEffects_slot targetFruit Hin)
        as (won & Hwon & _ & Hclicks & Hend & Htick & Herr).
      cbn [Game.effects Game.position Game.stopped].
      rewrite !countEffect_app, Hclicks, Hend, Htick, Herr.
      split; [rewrite Heq; lia|]. split; [reflexivity|].
      split; [reflexivity|]. split; [discriminate|].
      intros _. split; [exact Heq|].
      exists 0%nat, elapsed, won.
      repeat split; try assumption; try reflexivity.
      by rewrite <- Heq.
    + assert (Hnext : 0 <= (pos + 1) mod 10 < 10)
        by (apply Z.mod_pos_bound; lia).
      specialize (IH _ Hnext). cbn zeta in IH.
      destruct IH as (Hp & Herr & Hend & Hgo & Hstop).
      cbn [Game.effects Game.position Game.stopped].
      rewrite !countEffect_app, Herr, Hend.
      split; [exact Hp|]. split; [reflexivity|]. split; [reflexivity|]. split.
      * intros Hs. destruct (Hgo Hs) as (Ht & Hc & Hposn).
        rewrite Ht, Hc, Hposn. repeat split; try reflexivity.
        cbn [length]. rewrite Zplus_mod_idemp_l. f_equal. lia.
      * intros Hs. destruct (Hstop Hs) as (Ht & k & e & won & Hk & He & Hn & Htgt & Hw & Hc).
        split; [exact Ht|]. exists (S k), e, won.
        rewrite Hn, Hc. repeat split; try assumption; try reflexivity.
        rewrite Htgt, Zplus_mod_idemp_l. f_equal. lia.
Qed.

(** One step of the wheel brings the target one step nearer. *)
Lemma wheel_step (t p bound : Z) :
  0 <= p < 10 -> 0 <= t < 10 ->
  (t - p - 1) mod 10 < bound + 1 -> (p + 1) mod 10 <> t ->
  (t - (p + 1) mod 10 - 1) mod 10 < bound.
Proof.
  intros Hp Ht.
  assert (Hpc : p = 0 \/ p = 1 \/ p = 2 \/ p = 3 \/ p = 4 \/ p = 5 \/
                p = 6 \/ p = 7 \/ p = 8 \/ p = 9) by lia.
  assert (Htc : t = 0 \/ t = 1 \/ t = 2 \/ t = 3 \/ t = 4 \/ t = 5 \/
                t = 6 \/ t = 7 \/ t = 8 \/ t = 9) by lia.
  clear Hp Ht.
  repeat destruct Hpc as [-> | Hpc]; try subst p;
    repeat destruct Htc as [-> | Htc]; try subst t;
    repeat match goal with
           | |- context [?a mod 10] =>
               let v := eval vm_compute in (a mod 10) in
               change (a mod 10) with v
           end;
    intros Hm Hne; try lia; by destruct Hne.
Qed.

(** Once every reading is past the minimum duration, the wheel stops when
    it comes to the target, within a full turn. *)
Lemma ticks_stop_within (n : nat) (late : list Z) (targetFruit currentPosition : Z) :
  0 <= currentPosition < 10 -> 0 <= targetFruit < 10 ->
  Forall (fun elapsed => 5000 <= elapsed) late ->
  (targetFruit - currentPosition - 1) mod 10 < Z.of_nat n ->
  (n <= length late)%nat ->
  Game.stopped (Game.ticks targetFruit currentPosition late) = true
  /\ (Game.countEffect Game.isPlayTick
        (Game.effects (Game.ticks targetFruit currentPosition late)) <= n)%nat.
Proof.
  revert late currentPosition.
  induction n as [|n IH]; intros late pos Hpos Htgt Hlate Hm Hlen.
  - exfalso. pose proof (Z.mod_pos_bound (targetFruit - pos - 1) 10). lia.
  - destruct late as [|elapsed rest]; [simpl in Hlen; lia|].
    apply Forall_cons in Hlate as [He Hrest]. cbn [Game.ticks].
    destruct (tick_cases targetFruit pos elapsed Hpos)
      as [(Hge & Heq & ->) | (Hno & ->)].
    + destruct (stopEffects_slot targetFruit Htgt)
        as (won & _ & _ & _ & _ & Htick & _).
      cbn [Game.effects Game.stopped]. rewrite countEffect_app, Htick.
      split; [reflexivity | cbn; lia].
    + assert (Hne : (pos + 1) mod 10 <> targetFruit) by tauto.
      assert (Hnext : 0 <= (pos + 1) mod 10 < 10)
        by (apply Z.mod_pos_bound; lia).
      destruct (IH rest ((pos + 1) mod 10) Hnext Htgt Hrest) as [Hs Hc].
      * apply wheel_step; try assumption. lia.
      * simpl in Hlen. lia.
      * cbn [Game.effects Game.stopped]. rewrite countEffect_app.
        split; [exact Hs | cbn; cbn in Hc; lia].
Qed.

Lemma ticks_stop_after (early late : list Z) (targetFruit currentPosition : Z) :
  0 <= currentPosition < 10 -> 0 <= targetFruit < 10 ->
  Forall (fun elapsed => 5000 <= elapsed) late ->
  (10 <= length late)%nat ->
  Game.stopped (Game.ticks targetFruit currentPosition (early ++ late)) = true
  /\ (Game.countEffect Game.isPlayTick
        (Game.effects (Game.ticks targetFruit currentPosition (early ++ late)))
      <= length early + 10)%nat.
Proof.
  revert currentPosition.
  induction early as [|elapsed early IH]; intros pos Hpos Htgt Hlate Hlen.
  - cbn [app length Nat.add].
    apply (ticks_stop_within 10); try assumption.
    pose proof (Z.mod_pos_bound (targetFruit - pos - 1) 10). lia.
  - cbn [app Game.ticks].
    destruct (tick_cases targetFruit pos elapsed Hpos)
      as [(Hge & Heq & ->) | (Hno & ->)].
    + destruct (stopEffects_slot targetFruit Htgt)
        as (won & _ & _ & _ & _ & Htick & _).
      cbn [Game.effects Game.stopped]. rewrite countEffect_app, Htick.
      split; [reflexivity | cbn; lia].
    + assert (Hnext : 0 <= (pos + 1) mod 10 < 10)
        by (apply Z.mod_pos_bound; lia).
      destruct (IH _ Hnext Htgt Hlate Hlen) as [Hs Hc].
      cbn [Game.effects Game.stopped]. rewrite countEffect_app.
      split; [exact Hs | cbn; cbn in Hc; lia].
Qed.

Lemma pickWith_range {num : Type} (sub : num -> num -> num) (np : num -> bool)
    (weights : list num) (roll : num) :
  length weights = length Game.fruits ->
  0 <= Game.pickWith sub np weights roll < Z.of_nat (length Game.fruits).
Proof.
  intros Hlen. unfold Game.pickWith.
  destruct (Game.scan sub np weights 0 roll) as [j|] eqn:Hscan.
  - apply scan_range in Hscan. lia.
  - cbn. lia.
Qed.

Lemma pick_range (ar : Game.Arithmetic) (random : Game.num ar) :
  0 <= Game.pickTargetFruitIndexWeighted ar random < 10.
Proof.
  unfold Game.pickTargetFruitIndexWeighted.
  apply (pickWith_range (Game.sub ar) (Game.nonPositive ar)).
  apply length_map.
Qed.

(** X1.  [pickTargetFruitIndexWeighted] always returns the index of a slot
    of the table.  Whatever [Math.random()] gives, and whatever the
    arithmetic of the subtraction [roll -= weights[i]] and of the test
    [roll <= 0] is, the index is between 0 and 9, so that
    [fruits[targetFruit]] is defined. *)
Theorem pick_index_is_a_slot :
  (forall (num : Type) (sub : num -> num -> num) (nonPositive : num -> bool)
          (weights : list num) (roll : num),
     length weights = length Game.fruits ->
     0 <= Game.pickWith sub nonPositive weights roll
       < Z.of_nat (length Game.fruits))
  /\ (forall (ar : Game.Arithmetic) (random : Game.num ar),
        0 <= Game.pickTargetFruitIndexWeighted ar random < 10
        /\ is_Some (Game.fruits
                      !! Z.to_nat (Game.pickTargetFruitIndexWeighted ar random))).
Proof.
  split; [intros; by apply pickWith_range|].
  intros ar random. pose proof (pick_range ar random) as H. split; [exact H|].
  apply lookup_lt_is_Some. change (length Game.fruits) with 10%nat. lia.
Qed.

Lemma pick_index_is_a_slot_witness :
  0 <= Game.pickWith Z.sub (fun r => r <=? 0)
         [22; 18; 14; 10; 6; 4; 3; 2; 1; 1] 41 < 10.
Proof.
  destruct pick_index_is_a_slot as [Hany _].
  apply (Hany Z Z.sub (fun r => r <=? 0) [22; 18; 14; 10; 6; 4; 3; 2; 1; 1] 41).
  reflexivity.
Defined.

(** X2.  Among the slots of the table, a winning slot with more points has
    a strictly smaller weight, every winning slot weighs less than the
    losing slot, and no winning slot is given the default weight 1. *)
Theorem more_points_weigh_less (f g : Game.Fruit) :
  f ∈ Game.fruits -> g ∈ Game.fruits -> Game.isLoser g = false ->
  (Game.isLoser f = true -> (Game.weightOf g < Game.weightOf f)%Q)
  /\ (Game.isLoser f = false -> Game.points f < Game.points g ->
      (Game.weightOf g < Game.weightOf f)%Q)
  /\ ~ (Game.weightOf g == 1)%Q.
Proof.
  unfold Game.fruits. intros Hf Hg.
  repeat (apply elem_of_cons in Hf as [-> | Hf]);
    try (by apply elem_of_nil in Hf);
    repeat (apply elem_of_cons in Hg as [-> | Hg]);
    try (by apply elem_of_nil in Hg);
    cbn; intros Hl; try discriminate Hl;
    (split; [intros Hlf; try discriminate Hlf; reflexivity|]);
    (split; [intros _ Hlt; try (exfalso; lia); reflexivity | discriminate]).
Qed.

(** X3.  The delay before the next tick depends on the elapsed time
    alone: 35 ms before 3000 ms have elapsed, 90 ms from 3000 ms, 160 ms
    from 4250 ms and 320 ms from 4750 ms on; it never decreases as the time
    elapsed grows. *)
Theorem spin_delay_phases (elapsed elapsed' : Z) :
  Game.delayOf (Game.progressOf elapsed) =
    (if elapsed <? 3000 then 35
     else if elapsed <? 4250 then 90
     else if elapsed <? 4750 then 160
     else 320)
  /\ (elapsed <= elapsed' ->
      Game.delayOf (Game.progressOf elapsed)
        <= Game.delayOf (Game.progressOf elapsed')).
Proof.
  split; [apply delayOf_progressOf|].
  rewrite !delayOf_progressOf. intros Hle.
  repeat match goal with
         | |- context [?a <? ?b] => destruct (Z.ltb_spec a b)
         end; lia.
Qed.

Lemma spin_delay_phases_witness :
  Game.delayOf (Game.progressOf 2999) <= Game.delayOf (Game.progressOf 4750).
Proof.
  destruct (spin_delay_phases 2999 4750) as [_ Hmono]. apply Hmono. lia.
Defined.

(** X4.  A tick may stop the spin exactly when 5000 ms have elapsed.  The
    delay is then 320, so the test [delay >= 160] never decides anything;
    and a tick of the phases of 35, 90 or 160 ms never ends the spin,
    whatever the target: it moves the highlight on and schedules the next
    tick. *)
Theorem spin_stops_only_in_slowest_phase (elapsed : Z) :
  Game.canStop elapsed (Game.delayOf (Game.progressOf elapsed))
    = (elapsed >=? 5000)
  /\ (5000 <= elapsed -> Game.delayOf (Game.progressOf elapsed) = 320)
  /\ (forall targetFruit currentPosition,
        0 <= currentPosition < 10 ->
        Game.delayOf (Game.progressOf elapsed) <= 160 ->
        Game.tick targetFruit currentPosition elapsed =
          ((currentPosition + 1) mod 10,
           [Game.SetSelectedFruit ((currentPosition + 1) mod 10);
            Game.PlayTick;
            Game.ScheduleTick (Game.delayOf (Game.progressOf elapsed))],
           Some (Game.delayOf (Game.progressOf elapsed)))).
Proof.
  split; [apply canStop_elapsed|]. split.
  - intros Hge. rewrite delayOf_progressOf.
    repeat match goal with
           | |- context [?a <? ?b] => destruct (Z.ltb_spec a b); try lia
           end.
  - intros targetFruit pos Hpos Hslow.
    destruct (tick_cases targetFruit pos elapsed Hpos)
      as [(Hge & _ & _) | (_ & Htick)]; [|exact Htick].
    exfalso. revert Hslow. rewrite delayOf_progressOf.
    repeat match goal with
           | |- context [?a <? ?b] => destruct (Z.ltb_spec a b); try lia
           end.
Qed.

Lemma spin_stops_only_in_slowest_phase_witness :
  Game.delayOf (Game.progressOf 5000) = 320
  /\ Game.tick 3 2 4700 =
       (3, [Game.SetSelectedFruit 3; Game.PlayTick; Game.ScheduleTick 160],
        Some 160).
Proof.
  destruct (spin_stops_only_in_slowest_phase 5000) as (_ & Hslowest & _).
  destruct (spin_stops_only_in_slowest_phase 4700) as (_ & _ & Hgo).
  split; [apply Hslowest; lia|].
  apply (Hgo 3 2); [lia | vm_compute; discriminate].
Defined.

(** X5.  A spin ends only on the slot that was picked, and not before the
    minimum duration.  [setIsSpinning(false)] is called once when the spin
    stops and never otherwise, and the lookup of the won slot never fails.
    A call while a spin is going does nothing; when [ensureAudio] fails,
    the page stays in the spinning state and no tick runs.  When the spin
    stops, the highlight is on the picked slot, the stopping tick saw at
    least 5000 ms elapsed, and the number of ticks made is the index of the
    slot modulo 10. *)
Theorem spin_ends_only_on_target (ar : Game.Arithmetic) (isSpinning : bool)
    (audio : Settled unit) (random : Game.num ar) (readings : list Z) :
  let s := Game.spinFruits ar isSpinning audio random readings in
  Game.countEffect Game.isTypeError (Game.effects s) = 0%nat
  /\ Game.countEffect Game.isSpinEnd (Game.effects s)
       = (if Game.stopped s then 1 else 0)%nat
  /\ (isSpinning = true -> Game.effects s = [])
  /\ (forall e, isSpinning = false -> audio = Rejected e ->
      Game.effects s = [Game.SetIsSpinning true; Game.EnsureAudio]
      /\ Game.stopped s = false)
  /\ (Game.stopped s = true ->
      isSpinning = false
      /\ (exists u, audio = Fulfilled u)
      /\ Game.position s = Game.pickTargetFruitIndexWeighted ar random
      /\ exists k elapsed,
           readings !! k = Some elapsed
           /\ 5000 <= elapsed
           /\ Game.countEffect Game.isPlayTick (Game.effects s) = S k
           /\ Game.pickTargetFruitIndexWeighted ar random = Z.of_nat (S k) mod 10).
Proof.
  unfold Game.spinFruits. destruct isSpinning; cbn zeta.
  { cbn. repeat split; discriminate. }
  destruct audio as [u|e]; cbn zeta.
  2: { cbn. repeat split; discriminate. }
  destruct (ticks_safe readings (Game.pickTargetFruitIndexWeighted ar random) 0)
    as (_ & Herr & Hend & _ & Hstop); [lia|].
  cbn [Game.effects Game.position Game.stopped].
  rewrite !countEffect_app, Herr, Hend.
  split; [reflexivity|]. split; [reflexivity|]. split; [discriminate|].
  split; [discriminate|].
  intros Hs. destruct (Hstop Hs) as (Hp & k & e & won & Hk & He & Hn & Htgt & _).
  split; [reflexivity|]. split; [by exists u|]. split; [exact Hp|].
  exists k, e. rewrite Hn. repeat split; assumption.
Qed.

Lemma spin_ends_only_on_target_witness :
  Game.position (Game.spinFruits Game.exact false (Fulfilled tt) 0.5%Q
                   [0; 5000; 5400; 5800]) = 2
  /\ Game.effects (Game.spinFruits Game.exact true (Fulfilled tt) 0.5%Q
                     [0; 5000]) = []
  /\ Game.effects (Game.spinFruits Game.exact false
                     (Rejected (JsError "The AudioContext was not allowed to start"))
                     0.5%Q [0; 5000; 5400; 5800])
     = [Game.SetIsSpinning true; Game.EnsureAudio].
Proof.
  destruct (spin_ends_only_on_target Game.exact false (Fulfilled tt) 0.5%Q
              [0; 5000; 5400; 5800]) as (_ & _ & _ & _ & Hstop).
  destruct (spin_ends_only_on_target Game.exact true (Fulfilled tt) 0.5%Q
              [0; 5000]) as (_ & _ & Hnone & _).
  destruct (spin_ends_only_on_target Game.exact false
              (Rejected (JsError "The AudioContext was not allowed to start"))
              0.5%Q [0; 5000; 5400; 5800]) as (_ & _ & _ & Hfail & _).
  split; [|split].
  - destruct (Hstop eq_refl) as (_ & _ & Hp & _). exact Hp.
  - apply Hnone. reflexivity.
  - destruct (Hfail _ eq_refl eq_refl) as [Hfx _]. exact Hfx.
Defined.

(** X6.  Once the ticks see at least 5000 ms elapsed, the spin stops within
    ten further ticks, on the slot that was picked, whatever
    [Math.random()] gave. *)
Theorem spin_stops_within_a_turn (ar : Game.Arithmetic) (u : unit)
    (random : Game.num ar) (early late : list Z) :
  Forall (fun elapsed => 5000 <= elapsed) late ->
  (10 <= length late)%nat ->
  let s := Game.spinFruits ar false (Fulfilled u) random (early ++ late) in
  Game.stopped s = true
  /\ Game.position s = Game.pickTargetFruitIndexWeighted ar random
  /\ (Game.countEffect Game.isPlayTick (Game.effects s) <= length early + 10)%nat.
Proof.
  intros Hlate Hlen. unfold Game.spinFruits. cbn zeta.
  cbn [Game.effects Game.position Game.stopped].
  destruct (ticks_stop_after early late
              (Game.pickTargetFruitIndexWeighted ar random) 0)
    as [Hs Hc]; try assumption; [lia | apply (pick_range ar) |].
  destruct (ticks_safe (early ++ late)
              (Game.pickTargetFruitIndexWeighted ar random) 0)
    as (_ & _ & _ & _ & Hstop); [lia|].
  destruct (Hstop Hs) as (Hp & _).
  rewrite countEffect_app. split; [exact Hs|]. split; [exact Hp|].
  cbn. cbn in Hc. lia.
Qed.

Lemma spin_stops_within_a_turn_witness :
  Game.stopped (Game.spinFruits Game.exact false (Fulfilled tt) 0.95%Q
                  ([0; 1000; 3500] ++ replicate 10 6000)) = true.
Proof.
  apply (spin_stops_within_a_turn Game.exact tt 0.95%Q [0; 1000; 3500] (replicate 10 6000)).
  - repeat constructor; lia.
  - cbn. lia.
Defined.

Lemma clicksFor_bound (wonFruit : Game.Fruit) :
  wonFruit ∈ Game.fruits -> (Game.clicksFor wonFruit <= 50)%nat.
Proof.
  unfold Game.fruits. intros H.
  repeat (apply elem_of_cons in H as [-> | H]);
    try (by apply elem_of_nil in H); vm_compute; lia.
Qed.

(** X7.  A spin that has not stopped has called [clickTriggered] not
    once.  A spin that stops has called it as many times as the slot under
    the highlight has points, and not at all on the losing slot; that is
    never more than 50 times. *)
Theorem spin_credits_points_of_slot (ar : Game.Arithmetic) (isSpinning : bool)
    (audio : Settled unit) (random : Game.num ar) (readings : list Z) :
  let s := Game.spinFruits ar isSpinning audio random readings in
  (Game.stopped s = false ->
   Game.countEffect Game.isClick (Game.effects s) = 0%nat)
  /\ (Game.stopped s = true ->
      exists wonFruit,
        Game.fruits !! Z.to_nat (Game.position s) = Some wonFruit
        /\ Game.countEffect Game.isClick (Game.effects s)
             = (if Game.isLoser wonFruit then 0%nat
                else Z.to_nat (Game.points wonFruit))
        /\ (Game.countEffect Game.isClick (Game.effects s) <= 50)%nat).
Proof.
  unfold Game.spinFruits. destruct isSpinning; cbn zeta.
  { cbn. split; [reflexivity | discriminate]. }
  destruct audio as [u|e]; cbn zeta.
  2: { cbn. split; [reflexivity | discriminate]. }
  destruct (ticks_safe readings (Game.pickTargetFruitIndexWeighted ar random) 0)
    as (_ & _ & _ & Hgo & Hstop); [lia|].
  cbn [Game.effects Game.position Game.stopped]. rewrite !countEffect_app.
  split.
  - intros Hs. destruct (Hgo Hs) as (_ & Hc & _). by rewrite Hc.
  - intros Hs.
    destruct (Hstop Hs) as (Hp & k & e & won & _ & _ & _ & _ & Hwon & Hc).
    exists won. rewrite Hp, Hc. split; [exact Hwon|]. split; [reflexivity|].
    cbn. apply clicksFor_bound. by eapply list_elem_of_lookup_2.
Qed.

Lemma spin_credits_points_of_slot_witness :
  Game.countEffect Game.isClick
    (Game.effects (Game.spinFruits Game.exact false (Fulfilled tt) 0.5%Q
                     [0; 5000; 5400; 5800])) = 3%nat
  /\ Game.countEffect Game.isClick
       (Game.effects (Game.spinFruits Game.exact false (Fulfilled tt) 0.5%Q [0; 1000])) = 0%nat.
Proof.
  destruct (spin_credits_points_of_slot Game.exact false (Fulfilled tt) 0.5%Q
              [0; 5000; 5400; 5800]) as [_ Hstop].
  destruct (spin_credits_points_of_slot Game.exact false (Fulfilled tt) 0.5%Q [0; 1000])
    as [Hgo _].
  split; [|apply Hgo; reflexivity].
  destruct (Hstop eq_refl) as (won & Hwon & Hc & _).
  vm_compute in Hwon. injection Hwon as <-. exact Hc.
Defined.

Lemma more_points_weigh_less_witness :
  (Game.weightOf {| Game.emoji := "💎"; Game.name := "Diamond";
                    Game.points := 50; Game.isLoser := false |}
   < Game.weightOf {| Game.emoji := "🍒"; Game.name := "Cherry";
                      Game.points := 1; Game.isLoser := false |})%Q.
Proof.
  destruct (more_points_weigh_less
              {| Game.emoji := "🍒"; Game.name := "Cherry";
                 Game.points := 1; Game.isLoser := false |}
              {| Game.emoji := "💎"; Game.name := "Diamond";
                 Game.points := 50; Game.isLoser := false |})
    as (_ & Hlt & _).
  - apply list_elem_of_In. vm_compute. tauto.
  - apply list_elem_of_In. vm_compute. tauto.
  - reflexivity.
  - apply Hlt; [reflexivity | cbn; lia].
Defined.

(** ** The welcome message route *)

(** X8.  The welcome route calls the Telegram API at most once, however
    that call ends: there is no retry.  It calls it exactly when the body
    could be read, [telegramId] is truthy and [BOT_TOKEN] is set and not
    empty; the call is then a POST to the bot's [sendMessage] address with
    [chat_id] the [telegramId] of the request, the welcome text and
    [parse_mode] "Markdown". *)
Theorem welcome_calls_telegram_at_most_once
    (req : Settled SendWelcome.WelcomeRequestBody) (env : SendWelcome.Surroundings) :
  (length (SendWelcome.fetches (SendWelcome.POST req env).1) <= 1)%nat
  /\ (SendWelcome.fetches (SendWelcome.POST req env).1 <> [] <->
      exists b, req = Fulfilled b
                /\ SendWelcome.truthy (SendWelcome.telegramId b) = true
                /\ SendWelcome.truthy (SendWelcome.BOT_TOKEN env) = true)
  /\ (forall call, call ∈ SendWelcome.fetches (SendWelcome.POST req env).1 ->
      exists b id token,
        req = Fulfilled b
        /\ SendWelcome.telegramId b = Some id
        /\ SendWelcome.BOT_TOKEN env = Some token
        /\ call = SendWelcome.Fetch
                    ("https://api.telegram.org/bot" ++ token ++ "/sendMessage")%string
                    "POST" "application/json" id
                    (SendWelcome.welcomeMessage (SendWelcome.telegramName b))
                    "Markdown").
Proof.
  unfold SendWelcome.POST, SendWelcome.tryBlock.
  destruct req as [[id name]|e]; cbn [SendWelcome.telegramId SendWelcome.telegramName].
  2: { cbn. split; [lia|]. split; [|intros c Hc; by apply elem_of_nil in Hc].
       split; [done | intros (b & [=] & _)]. }
  destruct (SendWelcome.truthy id) eqn:Hid; cbn [negb].
  2: { cbn. split; [lia|]. split; [|intros c Hc; by apply elem_of_nil in Hc].
       split; [done | intros (b & [= <-] & Hb & _); cbn in Hb; congruence]. }
  destruct env as [token f]; cbn [SendWelcome.BOT_TOKEN SendWelcome.fetched].
  destruct (SendWelcome.truthy token) eqn:Htok; cbn [negb].
  2: { cbn. split; [lia|]. split; [|intros c Hc; by apply elem_of_nil in Hc].
       split; [done | intros (b & _ & _ & [=])]. }
  destruct id as [id|]; [|discriminate Hid].
  destruct token as [token|]; [|discriminate Htok].
  assert (Hyes : exists b : SendWelcome.WelcomeRequestBody,
             Fulfilled {| SendWelcome.telegramId := Some id;
                          SendWelcome.telegramName := name |} = Fulfilled b
             /\ SendWelcome.truthy (SendWelcome.telegramId b) = true
             /\ true = true) by (eexists; split; [reflexivity | by split]).
  destruct f as [[o j]|e]; [destruct o; [|destruct j]|]; cbn;
    (split; [lia|]); (split; [split; [intros _; exact Hyes | discriminate]|]);
    intros c Hc; apply list_elem_of_singleton in Hc as ->;
    by eexists _, _, _.
Qed.

(** Use up the facts about how a request was read and answered. *)
Ltac contradict_facts :=
  repeat match goal with
         | H : _ /\ _ |- _ => destruct H
         | H : exists _, _ |- _ => destruct H
         | H : _ \/ _ |- _ => destruct H
         | H : Fulfilled _ = Fulfilled _ |- _ => injection H as H; subst
         | H : Fulfilled _ = Rejected _ |- _ => discriminate H
         | H : Rejected _ = Fulfilled _ |- _ => discriminate H
         end;
  cbn in *; congruence.

Ltac settle :=
  let H := fresh in
  intros H;
  first [ reflexivity
        | discriminate H
        | contradict_facts
        | clear H; cbn; eauto 12 ].

Ltac table := do 4 (split; [split; settle|]); split; settle.

(** X9.  The response of the welcome route, case by case.  400
    "Missing telegramId" exactly when the body was read and [telegramId] is
    falsy, whether or not the token is set; 500 "BOT_TOKEN not configured"
    exactly when [telegramId] is truthy and the token is missing or empty;
    200 exactly when the call was made and answered with [ok]; 500
    "Failed to send message" exactly when it was answered without [ok] and
    the answer's body could be parsed; 500 "Internal server error" exactly
    when the body of the request could not be read, the call failed, or the
    body of an answer without [ok] could not be parsed. *)
Theorem welcome_response_table
    (req : Settled SendWelcome.WelcomeRequestBody) (env : SendWelcome.Surroundings) :
  let resp := (SendWelcome.POST req env).2 in
  let called :=
    exists b, req = Fulfilled b
              /\ SendWelcome.truthy (SendWelcome.telegramId b) = true
              /\ SendWelcome.truthy (SendWelcome.BOT_TOKEN env) = true in
  (resp = SendWelcome.respond (SendWelcome.WelcomeError "Missing telegramId") 400 <->
   exists b, req = Fulfilled b
             /\ SendWelcome.truthy (SendWelcome.telegramId b) = false)
  /\ (resp = SendWelcome.respond
               (SendWelcome.WelcomeError "BOT_TOKEN not configured") 500 <->
      exists b, req = Fulfilled b
                /\ SendWelcome.truthy (SendWelcome.telegramId b) = true
                /\ SendWelcome.truthy (SendWelcome.BOT_TOKEN env) = false)
  /\ (resp = SendWelcome.respond SendWelcome.WelcomeSuccess 200 <->
      called /\ exists r, SendWelcome.fetched env = Fulfilled r
                          /\ SendWelcome.ok r = true)
  /\ (resp = SendWelcome.respond
               (SendWelcome.WelcomeError "Failed to send message") 500 <->
      called /\ exists r errorData,
                  SendWelcome.fetched env = Fulfilled r
                  /\ SendWelcome.ok r = false
                  /\ SendWelcome.responseJson r = Fulfilled errorData)
  /\ (resp = SendWelcome.respond
               (SendWelcome.WelcomeError "Internal server error") 500 <->
      (exists e, req = Rejected e)
      \/ (called /\
          ((exists e, SendWelcome.fetched env = Rejected e)
           \/ exists r e, SendWelcome.fetched env = Fulfilled r
                          /\ SendWelcome.ok r = false
                          /\ SendWelcome.responseJson r = Rejected e))).
Proof.
  unfold SendWelcome.POST, SendWelcome.tryBlock.
  destruct req as [[id name]|e];
    cbn [SendWelcome.telegramId SendWelcome.telegramName]; cbn zeta.
  2: { cbn. table. }
  destruct (SendWelcome.truthy id) eqn:Hid; cbn [negb].
  2: { cbn. table. }
  destruct env as [token f]; cbn [SendWelcome.BOT_TOKEN SendWelcome.fetched].
  destruct (SendWelcome.truthy token) eqn:Htok; cbn [negb].
  2: { cbn. table. }
  destruct f as [[o j]|e]; [destruct o; [|destruct j]|]; cbn; table.
Qed.

(** X10.  [telegramName] is not checked: the response does not depend on
    it, and a request without it is still sent to Telegram, with the text
    greeting "undefined". *)
Theorem welcome_name_is_not_checked
    (id name name' : option string) (env : SendWelcome.Surroundings) :
  (SendWelcome.POST
     (Fulfilled {| SendWelcome.telegramId := id;
                   SendWelcome.telegramName := name |}) env).2
  = (SendWelcome.POST
       (Fulfilled {| SendWelcome.telegramId := id;
                     SendWelcome.telegramName := name' |}) env).2
  /\ (SendWelcome.truthy id = true ->
      SendWelcome.truthy (SendWelcome.BOT_TOKEN env) = true ->
      exists url chat,
        SendWelcome.fetches
          (SendWelcome.POST
             (Fulfilled {| SendWelcome.telegramId := id;
                           SendWelcome.telegramName := None |}) env).1
        = [SendWelcome.Fetch url "POST" "application/json" chat
             (SendWelcome.welcomeMessage None) "Markdown"]
        /\ includes (SendWelcome.welcomeMessage None) "Welcome undefined!" = true).
Proof.
  unfold SendWelcome.POST, SendWelcome.tryBlock.
  cbn [SendWelcome.telegramId SendWelcome.telegramName].
  destruct (SendWelcome.truthy id) eqn:Hid; cbn [negb].
  2: { split; [reflexivity | discriminate]. }
  destruct env as [token f]; cbn [SendWelcome.BOT_TOKEN SendWelcome.fetched].
  destruct (SendWelcome.truthy token) eqn:Htok; cbn [negb].
  2: { split; [reflexivity | discriminate]. }
  destruct f as [[o j]|e]; [destruct o; [|destruct j]|]; cbn;
    (split; [reflexivity|]); intros _ _; eexists _, _;
    (split; [reflexivity | vm_compute; reflexivity]).
Qed.

Lemma welcome_calls_telegram_at_most_once_witness :
  exists b id token,
    Fulfilled {| SendWelcome.telegramId := Some "42";
                 SendWelcome.telegramName := Some "Ann" |} = Fulfilled b
    /\ SendWelcome.telegramId b = Some id
    /\ Some "T0K" = Some token
    /\ SendWelcome.Fetch "https://api.telegram.org/botT0K/sendMessage" "POST"
         "application/json" "42" (SendWelcome.welcomeMessage (Some "Ann"))
         "Markdown"
       = SendWelcome.Fetch
           ("https://api.telegram.org/bot" ++ token ++ "/sendMessage")%string
           "POST" "application/json" id
           (SendWelcome.welcomeMessage (SendWelcome.telegramName b)) "Markdown".
Proof.
  destruct (welcome_calls_telegram_at_most_once
              (Fulfilled {| SendWelcome.telegramId := Some "42";
                            SendWelcome.telegramName := Some "Ann" |})
              {| SendWelcome.BOT_TOKEN := Some "T0K";
                 SendWelcome.fetched :=
                   Fulfilled {| SendWelcome.ok := true;
                                SendWelcome.responseJson := Fulfilled "{}" |} |})
    as (_ & _ & Hcall).
  apply Hcall. apply list_elem_of_In. vm_compute. tauto.
Defined.

Lemma welcome_response_table_witness :
  (SendWelcome.POST
     (Fulfilled {| SendWelcome.telegramId := Some "42";
                   SendWelcome.telegramName := Some "Ann" |})
     {| SendWelcome.BOT_TOKEN := Some "T0K";
        SendWelcome.fetched :=
          Fulfilled {| SendWelcome.ok := false;
                       SendWelcome.responseJson := Rejected (JsError "Unexpected token <") |} |}).2
  = SendWelcome.respond (SendWelcome.WelcomeError "Internal server error") 500.
Proof.
  destruct (welcome_response_table
              (Fulfilled {| SendWelcome.telegramId := Some "42";
                            SendWelcome.telegramName := Some "Ann" |})
              {| SendWelcome.BOT_TOKEN := Some "T0K";
                 SendWelcome.fetched :=
                   Fulfilled {| SendWelcome.ok := false;
                                SendWelcome.responseJson :=
                                  Rejected (JsError "Unexpected token <") |} |})
    as (_ & _ & _ & _ & Hinternal).
  apply Hinternal. right. split.
  - eexists. split; [reflexivity|]. split; reflexivity.
  - right. eexists _, _. split; [reflexivity|]. split; reflexivity.
Defined.

Lemma welcome_name_is_not_checked_witness :
  exists url chat,
    SendWelcome.fetches
      (SendWelcome.POST
         (Fulfilled {| SendWelcome.telegramId := Some "42";
                       SendWelcome.telegramName := None |})
         {| SendWelcome.BOT_TOKEN := Some "T0K";
            SendWelcome.fetched :=
              Fulfilled {| SendWelcome.ok := true;
                           SendWelcome.responseJson := Fulfilled "{}" |} |}).1
    = [SendWelcome.Fetch url "POST" "application/json" chat
         (SendWelcome.welcomeMessage None) "Markdown"]
    /\ includes (SendWelcome.welcomeMessage None) "Welcome undefined!" = true.
Proof.
  destruct (welcome_name_is_not_checked (Some "42") None None
              {| SendWelcome.BOT_TOKEN := Some "T0K";
                 SendWelcome.fetched :=
                   Fulfilled {| SendWelcome.ok := true;
                                SendWelcome.responseJson := Fulfilled "{}" |} |})
    as [_ Hsent].
  apply Hsent; reflexivity.
Defined.

(** ** What the award calls keep true of the rows *)

(** Every program has a path to its end. *)
Lemma reaches_complete {A : Type} (p : Prog A) :
  exists t a, reaches p t (Ret a).
Proof.
  induction p as [a|k IH|w k IH|k IH|args k IH|c k IH|m e k IH|ms k IH].
  - exists [], a. constructor.
  - destruct IH as (t & a & H). eexists (_ :: t), a.
    eapply reaches_step; [constructor | exact H].
  - destruct (IH (Fulfilled None)) as (t & a & H). eexists (_ :: t), a.
    eapply reaches_step; [constructor | exact H].
  - destruct (IH 0) as (t & a & H). eexists (_ :: t), a.
    eapply reaches_step; [constructor | exact H].
  - destruct (IH (Rejected recordNotFound)) as (t & a & H).
    eexists (_ :: t), a. eapply reaches_step; [constructor | exact H].
  - destruct IH as (t & a & H). eexists (_ :: t), a.
    eapply reaches_step; [constructor | exact H].
  - destruct IH as (t & a & H). eexists (_ :: t), a.
    eapply reaches_step; [constructor | exact H].
  - destruct IH as (t & a & H). eexists (_ :: t), a.
    eapply reaches_step; [constructor | exact H].
Qed.

Lemma updatesAsked_app (t t' : list Label) :
  updatesAsked (t ++ t') = updatesAsked t ++ updatesAsked t'.
Proof.
  induction t as [|l t IH]; [reflexivity|].
  destruct l; simpl; by rewrite ?IH.
Qed.

(** Whatever a call has done so far, each update it asked for is the one
    of its request. *)
Lemma POST_asks (req : NextRequest) tr p :
  reaches (POST req) tr p -> Forall (asksFor req) (updatesAsked tr).
Proof.
  intros Hr. destruct (reaches_complete p) as (t' & o & Hend).
  pose proof (reaches_trans _ _ _ _ _ Hr Hend) as Hfull.
  assert (Hall : Forall (asksFor req) (updatesAsked (tr ++ t'))).
  { refine (onAllPaths_reaches (POST req) [] (fun tr o =>
              Forall (asksFor req) (updatesAsked tr)) _ o _ Hfull).
    apply POST_cases.
    - intros e _. constructor.
    - intros b _ _. constructor.
    - intros t p0 Hreq Ht Hp. explore.
      all: repeat constructor.
      all: by exists t, p0. }
  rewrite updatesAsked_app in Hall. by apply Forall_app in Hall as [Hall _].
Qed.

Lemma rowKept_refl (u : user.t) : rowKept u u.
Proof. unfold rowKept. repeat split; lia. Qed.

Lemma rowKept_trans (u0 u1 u2 : user.t) :
  rowKept u0 u1 -> rowKept u1 u2 -> rowKept u0 u2.
Proof. unfold rowKept. intros (? & ? & ? & ?) (? & ? & ? & ?). repeat split; congruence || lia. Qed.

(** One event against the store changes at most the row an update names,
    by the increments of that update. *)
Lemma step_store {A : Type} c (st : Store) (p : Prog A) l st' p' :
  step c st p = Some (l, st', p') ->
  st' = st
  \/ exists a u,
       updatesAsked [l] = [a]
       /\ st !! whereTelegramId a = Some u
       /\ st' = <[whereTelegramId a := applyUpdate a u]> st.
Proof.
  destruct p as [a|k|x k|k|args k|b k|m e k|ms k]; simpl;
    try discriminate; intros [= <- <- <-]; try (by left).
  unfold gatewayUpdate.
  destruct (fault c); [by left|].
  destruct (st !! whereTelegramId args) as [u|] eqn:Hu; [|by left].
  destruct (user.lastPointsUpdateTimestamp u =? _); [|by left].
  right. by exists args, u.
Qed.

(** One step of a pool of award calls: nothing happens, or one thread
    performs one event of its call. *)
Lemma poolStep_event reqs P ic :
  onTrack reqs P ->
  poolStep P ic = P
  \/ exists req th l st' p',
       reqs !! ic.1 = Some req
       /\ step ic.2 (store P) (code th) = Some (l, st', p')
       /\ store (poolStep P ic) = st'
       /\ reaches (POST req) (log th ++ [l]) p'.
Proof.
  unfold onTrack, poolStep. intros HF.
  destruct (threads P !! ic.1) as [th|] eqn:Hth; [|by left].
  destruct (step ic.2 (store P) (code th)) as [[[l st'] p']|] eqn:Hs;
    [|by left].
  right.
  destruct (Forall2_lookup_r _ _ _ _ _ HF Hth) as (req & Hreq & Hr).
  exists req, th, l, st', p'. repeat split; try assumption.
  eapply reaches_snoc; [exact Hr|]. by eapply step_lstep.
Qed.

Lemma poolStep_rowsKept reqs st0 P ic :
  onTrack reqs P -> rowsKept st0 (store P) ->
  rowsKept st0 (store (poolStep P ic)).
Proof.
  intros Htrack Hkept.
  destruct (poolStep_event reqs P ic Htrack)
    as [-> | (req & th & l & st' & p' & Hreq & Hs & -> & Hr)]; [exact Hkept|].
  destruct (step_store _ _ _ _ _ _ Hs) as [-> | (a & u & Ha & Hu & ->)];
    [exact Hkept|].
  apply POST_asks in Hr. rewrite updatesAsked_app, Ha in Hr.
  apply Forall_app in Hr as [_ Hr]. apply Forall_inv in Hr.
  destruct Hr as (t & p & _ & _ & Hp & _ & Hip & Hib).
  intros w. specialize (Hkept w).
  destruct (decide (whereTelegramId a = w)) as [<-|Hne].
  - rewrite lookup_insert_eq. rewrite Hu in Hkept.
    destruct (st0 !! whereTelegramId a) as [u0|]; [|done].
    eapply rowKept_trans; [exact Hkept|].
    unfold rowKept, applyUpdate. cbn. rewrite Hip, Hib. repeat split; lia.
  - by rewrite lookup_insert_ne.
Qed.

Lemma pool_rowsKept st reqs schedule :
  rowsKept st (store (runPool schedule (spawn st reqs))).
Proof.
  assert (H : onTrack reqs (runPool schedule (spawn st reqs))
              /\ rowsKept st (store (runPool schedule (spawn st reqs)))).
  { apply (runPool_invariant (fun P => onTrack reqs P /\ rowsKept st (store P))).
    - intros P ic [Ht Hk]. split;
        [by apply poolStep_onTrack | by apply poolStep_rowsKept with reqs].
    - split; [apply spawn_onTrack|]. intros w. cbn.
      destruct (st !! w); [apply rowKept_refl | done]. }
  apply H.
Qed.

(** X12.  Award calls move the two counters of a row together: for any
    requests, interleaved by any schedule and at any point of it, each row
    keeps its [telegramId] and the difference between its [pointsBalance]
    and its [points], and neither counter has decreased. *)
Theorem award_calls_move_counters_together (st : Store)
    (reqs : list NextRequest) (schedule : list (nat * Choice))
    (w : string) (u0 : user.t) :
  st !! w = Some u0 ->
  exists u,
    store (runPool schedule (spawn st reqs)) !! w = Some u
    /\ user.telegramId u = user.telegramId u0
    /\ user.pointsBalance u - user.points u
       = user.pointsBalance u0 - user.points u0
    /\ user.points u0 <= user.points u
    /\ user.pointsBalance u0 <= user.pointsBalance u.
Proof.
  intros Hu0. pose proof (pool_rowsKept st reqs schedule w) as H.
  rewrite Hu0 in H.
  destruct (store (runPool schedule (spawn st reqs)) !! w) as [u|]; [|done].
  exists u. split; [reflexivity | exact H].
Qed.

Lemma namedRow_asks (req : NextRequest) (a : UpdateArgs) :
  asksFor req a -> namedRow req = Some (whereTelegramId a).
Proof.
  intros (t & p & Hreq & Ht & Hp & <- & _). unfold namedRow. rewrite Hreq.
  by rewrite (proj2 (invalidRequest_award _ p) (conj Ht Hp)).
Qed.

(** X13.  Award calls leave the rows of other users alone: a row that no
    request of the pool names (with a body that passes the validation) is,
    at any point of any schedule, what it was at the start. *)
Theorem award_calls_leave_other_rows (st : Store) (reqs : list NextRequest)
    (schedule : list (nat * Choice)) (w : string) :
  Forall (fun req => namedRow req <> Some w) reqs ->
  store (runPool schedule (spawn st reqs)) !! w = st !! w.
Proof.
  intros Hother.
  assert (H : onTrack reqs (runPool schedule (spawn st reqs))
              /\ store (runPool schedule (spawn st reqs)) !! w = st !! w).
  { apply (runPool_invariant
             (fun P => onTrack reqs P /\ store P !! w = st !! w)).
    - intros P ic [Ht Hk]. split; [by apply poolStep_onTrack|].
      destruct (poolStep_event reqs P ic Ht)
        as [-> | (req & th & l & st' & p' & Hreq & Hs & -> & Hr)]; [exact Hk|].
      destruct (step_store _ _ _ _ _ _ Hs) as [-> | (a & u & Ha & Hu & ->)];
        [exact Hk|].
      apply POST_asks in Hr. rewrite updatesAsked_app, Ha in Hr.
      apply Forall_app in Hr as [_ Hr]. apply Forall_inv in Hr.
      apply namedRow_asks in Hr.
      rewrite lookup_insert_ne; [exact Hk|].
      intros <-. eapply Forall_lookup_1 in Hother; [|exact Hreq]. done.
    - split; [apply spawn_onTrack | reflexivity]. }
  apply H.
Qed.

Lemma award_calls_move_counters_together_witness :
  exists u,
    store (runPool racing (spawn st1 (map (awardRequest "u1") [10; 15])))
      !! "u1" = Some u
    /\ user.telegramId u = "u1"
    /\ user.pointsBalance u - user.points u = 100 - 100
    /\ 100 <= user.points u
    /\ 100 <= user.pointsBalance u.
Proof.
  apply (award_calls_move_counters_together st1
           (map (awardRequest "u1") [10; 15]) racing "u1" u1).
  reflexivity.
Defined.

Lemma award_calls_leave_other_rows_witness :
  store (runPool racing (spawn st2 (map (awardRequest "u1") [10; 15])))
    !! "u2" = Some u2.
Proof.
  apply (award_calls_leave_other_rows st2 (map (awardRequest "u1") [10; 15])
           racing "u2").
  repeat constructor; vm_compute; discriminate.
Defined.
